(** * Mantella: character registry matching, resolution and override merging

    A shallow embedding of [src/games/gameable.py] (class [gameable]):
    - [_get_matching_df_rows_matcher]: the seven-tier matcher,
    - [find_character_info]: the resolver with its two collaborators,
    - [__apply_character_overrides]: the override ingestor.

    Modelling conventions.
    - Python [str] values are [string]s (byte strings); [str.lower] is
      modelled on the ASCII letters.
    - A table cell, a JSON value or a CSV value is a [pyval]: [None], the
      float [NaN] pandas uses for a missing cell, or a string.  Numeric
      cells and nested JSON values are outside the model.
    - The pandas [DataFrame] is a header list and a list of rows; a boolean
      [Series] (a row mask) is a [list bool] aligned with the rows.
    - Exceptions are explicit: [result A] is a value or a raised [exn].
    - [logging] calls carry no behaviour, except the warning of the
      ingestor, which is recorded in the world. *)

From Stdlib Require Import Ascii String.
From stdpp Require Import base option list strings gmap.

(** ** Python string primitives *)

Module Py.

Definition is_upper (c : ascii) : bool :=
  (65 <=? nat_of_ascii c) && (nat_of_ascii c <=? 90).

Definition lower_char (c : ascii) : ascii :=
  if is_upper c then ascii_of_nat (nat_of_ascii c + 32) else c.

(** [s.lower()] *)
Fixpoint lower (s : string) : string :=
  match s with
  | EmptyString => EmptyString
  | String c s' => String (lower_char c) (lower s')
  end.

(** [s.lstrip('0')] *)
Fixpoint lstrip0 (s : string) : string :=
  match s with
  | EmptyString => EmptyString
  | String c s' => if Ascii.eqb c "0" then lstrip0 s' else s
  end.

Fixpoint drop_chars (n : nat) (s : string) : string :=
  match n, s with
  | O, _ => s
  | S _, EmptyString => EmptyString
  | S n', String _ s' => drop_chars n' s'
  end.

(** [s[-n:]] for a positive [n]: the last [n] characters, the whole
    string when it is shorter. *)
Definition suffix (n : nat) (s : string) : string :=
  drop_chars (String.length s - n) s.

(** [s.split(sep)] for a non-empty [sep], scanning left to right:
    [skip] counts the characters of a separator still to be passed over,
    [cur] is the piece being collected. *)
Fixpoint split_go (sep : string) (skip : nat) (cur s : string) : list string :=
  match s with
  | EmptyString => [cur]
  | String c s' =>
      match skip with
      | S k => split_go sep k cur s'
      | O =>
          if String.prefix sep s
          then cur :: split_go sep (String.length sep - 1) EmptyString s'
          else split_go sep 0 (cur +:+ String c EmptyString) s'
      end
  end.

Definition split (sep s : string) : list string := split_go sep 0 EmptyString s.

End Py.

(** ** Python values and exceptions *)

Inductive pyval : Type :=
| PyNone
| PyNaN
| PyStr (s : string).

#[global] Instance pyval_eq_dec : EqDecision pyval.
Proof. solve_decision. Defined.

(** [pd.isna(v)] / [pd.isnull(v)] *)
Definition isna (v : pyval) : bool :=
  match v with PyStr _ => false | _ => true end.

(** [str(v)] *)
Definition py_str (v : pyval) : string :=
  match v with
  | PyNone => "None"
  | PyNaN => "nan"
  | PyStr s => s
  end.

(** Truth value of [v] in a condition: [None] and [''] are false, the
    float NaN is true. *)
Definition truthy (v : pyval) : bool :=
  match v with
  | PyNone => false
  | PyNaN => true
  | PyStr s => negb (String.eqb s "")
  end.

Inductive exn : Type :=
| KeyError (key : string)
| IndexError
| TypeError
| AttributeError
| ValueError
| DecodeError
| NotFoundError.

Inductive result (A : Type) : Type :=
| Ok (a : A)
| Raise (e : exn).
Arguments Ok {A} a.
Arguments Raise {A} e.

Definition rbind {A B} (r : result A) (k : A → result B) : result B :=
  match r with
  | Ok a => k a
  | Raise e => Raise e
  end.

Notation "'try!' x ← r ; k" := (rbind r (λ x, k))
  (at level 10, x name, r at level 100, k at level 200).

(** ** The pandas table *)

Abbreviation series := (list pyval).
Abbreviation mask := (list bool).

Record DataFrame : Type := mkDataFrame {
  columns : list string;
  rows : list (list pyval)
}.

#[global] Instance DataFrame_eq_dec : EqDecision DataFrame.
Proof. solve_decision. Defined.

Module Pandas.

Fixpoint index_of (c : string) (cols : list string) : option nat :=
  match cols with
  | [] => None
  | c' :: cols' =>
      if String.eqb c c' then Some 0 else S <$> index_of c cols'
  end.

(** The cell of [row] under header [c] ([row[c]] on a row of a frame
    with headers [cols]). *)
Definition cell (cols : list string) (row : list pyval) (c : string) : option pyval :=
  j ← index_of c cols; row !! j.

(** [df[c]]: the column as a series; [KeyError] for an unknown header. *)
Definition getitem (df : DataFrame) (c : string) : result series :=
  match index_of c (columns df) with
  | None => Raise (KeyError c)
  | Some j => Ok (map (λ row, default PyNaN (row !! j)) (rows df))
  end.

(** [m1 & m2] on aligned boolean series *)
Definition mand (m1 m2 : mask) : mask := zip_with andb m1 m2.

(** [m.any()] *)
Definition any (m : mask) : bool := existsb id m.

(** [df.loc[m].shape[0]]: the number of selected rows *)
Definition count (m : mask) : nat := length (filter (λ b, b = true) m).

(** [df.loc[m]]: the selected rows, in table order *)
Fixpoint select {A} (m : mask) (l : list A) : list A :=
  match m, l with
  | b :: m', x :: l' => if b then x :: select m' l' else select m' l'
  | _, _ => []
  end.

(** [df.loc[len(df.index)] = row]: the frame has the default index
    0..n-1 (rows are only ever appended), so the label is new and the row
    is appended; pandas refuses a row of the wrong width. *)
Definition append_row (df : DataFrame) (row : list pyval) : result DataFrame :=
  if decide (length row = length (columns df))
  then Ok (mkDataFrame (columns df) (rows df ++ [row]))
  else Raise ValueError.

(** [df.loc[m, c] = v]: the cell under [c] of every selected row becomes
    [v]; for a header the frame does not have, pandas adds the column,
    NaN in the rows that are not selected. *)
Definition set_loc (df : DataFrame) (m : mask) (c : string) (v : pyval) : DataFrame :=
  match index_of c (columns df) with
  | Some j =>
      mkDataFrame (columns df)
        (zip_with (λ (b : bool) row, if b then <[j := v]> row else row) m (rows df))
  | None =>
      mkDataFrame (columns df ++ [c])
        (zip_with (λ (b : bool) row, row ++ [if b then v else PyNaN]) m (rows df))
  end.

(** [df.loc[m].to_dict('records')]: one dict per selected row *)
Definition to_record (cols : list string) (row : list pyval) : gmap string pyval :=
  list_to_map (zip cols row).

End Pandas.

(** ** The matcher: [_get_matching_df_rows_matcher] *)

Module Gameable.

(** The inner function [remove_leading_zeros]. *)
Definition remove_leading_zeros (hex_str : pyval) : string :=
  if isna hex_str then "" else Py.lstrip0 (py_str hex_str).

Definition full_id_len : nat := 6.

(** [keys.str.lower() == s.lower()] on a series of strings *)
Definition eq_lower (keys : list string) (s : string) : mask :=
  map (λ k, String.eqb (Py.lower k) (Py.lower s)) keys.

(** The lambda applied to the [base_id] column for a partial length:
    [remove_leading_zeros(str(x)[-length:]) if pd.notna(x) and
     len(str(x)) >= length else remove_leading_zeros(str(x))]. *)
Definition partial_key (length : nat) (x : pyval) : string :=
  if negb (isna x) && (length <=? String.length (py_str x))
  then remove_leading_zeros (PyStr (Py.suffix length (py_str x)))
  else remove_leading_zeros (PyStr (py_str x)).

(** The right-hand side of the assignment to [partial_id_match] for one
    [length]. *)
Definition partial_id_at (ids : series) (base_id : string) (length : nat) : mask :=
  eq_lower (map (partial_key length) ids) (Py.lstrip0 (Py.suffix length base_id)).

(** [for length in [5, 4, 3]: if partial_id_match.any(): break; ...] *)
Fixpoint partial_id_loop (ids : series) (base_id : string)
    (lengths : list nat) (partial_id_match : mask) : mask :=
  match lengths with
  | [] => partial_id_match
  | length :: lengths' =>
      if Pandas.any partial_id_match then partial_id_match
      else partial_id_loop ids base_id lengths' (partial_id_at ids base_id length)
  end.

Definition partial_id_match (ids : series) (base_id : string) : mask :=
  partial_id_loop ids base_id [5; 4; 3] (replicate (length ids) false).

(** The dict [ordered_matchers], in insertion order. *)
Definition ordered_matchers (df : DataFrame) (base_id character_name race : string)
    : result (list (string * mask)) :=
  let full_id_search := Py.lstrip0 (Py.suffix full_id_len base_id) in
  try! ids ← Pandas.getitem df "base_id";
  let id_match := eq_lower (map remove_leading_zeros ids) full_id_search in
  try! names ← Pandas.getitem df "name";
  let name_match := eq_lower (map py_str names) character_name in
  try! races ← Pandas.getitem df "race";
  let race_match := eq_lower (map py_str races) race in
  let partial := partial_id_match ids base_id in
  Ok [ ("name, ID, race", Pandas.mand (Pandas.mand name_match id_match) race_match);
       ("name, ID", Pandas.mand name_match id_match);
       ("name, partial ID, race", Pandas.mand (Pandas.mand name_match partial) race_match);
       ("name, partial ID", Pandas.mand name_match partial);
       ("name, race", Pandas.mand name_match race_match);
       ("name", name_match);
       ("ID", id_match) ].

(** [for matcher in ordered_matchers: ... if view.shape[0] == 1: return] *)
Fixpoint first_single (matchers : list (string * mask)) : option (string * mask) :=
  match matchers with
  | [] => None
  | (label, m) :: matchers' =>
      if Pandas.count m =? 1 then Some (label, m) else first_single matchers'
  end.

Definition _get_matching_df_rows_matcher (df : DataFrame)
    (base_id character_name race : string) : result (option mask) :=
  try! matchers ← ordered_matchers df base_id character_name race;
  Ok (snd <$> first_single matchers).

(** The tier named in the [logging.info] line of a successful match. *)
Definition matched_by (df : DataFrame) (base_id character_name race : string)
    : result (option string) :=
  try! matchers ← ordered_matchers df base_id character_name race;
  Ok (fst <$> first_single matchers).

End Gameable.

(** ** The matcher as the specification words it: row by row *)

Module Spec.

(** The value of a row under a header, NaN when missing. *)
Definition field (df : DataFrame) (row : list pyval) (c : string) : pyval :=
  default PyNaN (Pandas.cell (columns df) row c).

Definition same_ci (a b : string) : bool := String.eqb (Py.lower a) (Py.lower b).

Definition name_match (df : DataFrame) (name : string) (row : list pyval) : bool :=
  same_ci (py_str (field df row "name")) name.

Definition race_match (df : DataFrame) (race : string) (row : list pyval) : bool :=
  same_ci (py_str (field df row "race")) race.

Definition id_match (df : DataFrame) (base_id : string) (row : list pyval) : bool :=
  same_ci (Gameable.remove_leading_zeros (field df row "base_id"))
          (Py.lstrip0 (Py.suffix 6 base_id)).

(** [partial_id_match(n)] on one row. *)
Definition partial_id_match (df : DataFrame) (n : nat) (base_id : string)
    (row : list pyval) : bool :=
  same_ci (Gameable.partial_key n (field df row "base_id"))
          (Py.lstrip0 (Py.suffix n base_id)).

(** Phase one: the first [n] of 5, 4, 3 under which some row matches;
    3 when none does. *)
Definition chosen_n (df : DataFrame) (base_id : string) : nat :=
  if existsb (partial_id_match df 5 base_id) (rows df) then 5
  else if existsb (partial_id_match df 4 base_id) (rows df) then 4
  else 3.

(** Phase two: the seven tiers, tightest first. *)
Definition tiers (df : DataFrame) (base_id name race : string)
    : list (list pyval → bool) :=
  let n := chosen_n df base_id in
  let nm := name_match df name in
  let im := id_match df base_id in
  let pm := partial_id_match df n base_id in
  let rm := race_match df race in
  [ (λ row, nm row && im row && rm row);
    (λ row, nm row && im row);
    (λ row, nm row && pm row && rm row);
    (λ row, nm row && pm row);
    (λ row, nm row && rm row);
    nm;
    im ].

(** The row selector of a predicate. *)
Definition selector (df : DataFrame) (p : list pyval → bool) : mask :=
  map p (rows df).

Definition selects_one (df : DataFrame) (p : list pyval → bool) : bool :=
  length (filter (λ row, p row = true) (rows df)) =? 1.

(** [find_match]: the selector of the first tier selecting exactly one
    row, [None] when there is none. *)
Definition find_match (df : DataFrame) (base_id name race : string) : option mask :=
  selector df <$> List.find (selects_one df) (tiers df base_id name race).

(** A table that has the three structural columns. *)
Definition has_key_columns (df : DataFrame) : Prop :=
  is_Some (Pandas.index_of "base_id" (columns df)) ∧
  is_Some (Pandas.index_of "name" (columns df)) ∧
  is_Some (Pandas.index_of "race" (columns df)).

End Spec.

Module Examples.

Definition hdr : list string := ["name"; "base_id"; "race"; "voice_model"].

Definition lydia_table : DataFrame :=
  mkDataFrame hdr
    [ [PyStr "Lydia"; PyStr "000A2F3C"; PyStr "Nord"; PyStr ""];
      [PyStr "Guard"; PyStr "0001A696"; PyStr "Nord"; PyStr "MaleGuard"];
      [PyStr "Guard"; PyStr "0001A697"; PyStr "Imperial"; PyNaN] ].

(** A generic-NPC loader and a voice-model finder to run the resolver
    with. *)
Definition generic_npc (name actor_race : string) (actor_sex : Z)
    (ingame_voice_model : string) : gmap string pyval :=
  {[ "name" := PyStr name; "race" := PyStr actor_race;
     "voice_model" := PyStr ingame_voice_model ]}.

Definition best_voice (actor_race : string) (actor_sex : Z)
    (ingame_voice_model : string) : string :=
  ingame_voice_model.

Definition nord_descriptor : string := "<NordRace (00012345) Race >".

End Examples.

(** ** The world the methods run in

    The object state ([character_df]), the part of the file system the
    ingestor looks at, the warnings it logs and the collaborator calls
    made, in order. *)

Inductive json_item : Type :=
| JDictItem (content : gmap string (option string))
| JOtherItem.

(** What [json.load] returns: an object (string or null values), an array
    (of objects and of other values; a top-level string iterates like an
    array of non-objects), or a value that cannot be iterated. *)
Inductive json : Type :=
| JDict (content : gmap string (option string))
| JList (items : list json_item)
| JAtom.

(** A directory entry: its name and what decoding it yields, as JSON
    ([open] + [json.load]) and as a table ([__get_character_df]). *)
Record file : Type := mkFile {
  file_name : string;
  json_load : result json;
  read_csv : result DataFrame
}.

Inductive call : Type :=
| LoadUnnamedNpc (name actor_race : string) (actor_sex : Z) (ingame_voice_model : string)
| FindBestVoiceModel (actor_race : string) (actor_sex : Z) (ingame_voice_model : string).

Record world : Type := mkWorld {
  character_df : DataFrame;
  folders : gmap string (list file);
  warnings : list (string * string * exn);
  calls : list call
}.

(** State and exceptions: a raised exception keeps the state reached. *)
Definition M (A : Type) : Type := world → result A * world.

Definition ret {A} (a : A) : M A := λ w, (Ok a, w).

Definition bind {A B} (m : M A) (k : A → M B) : M B :=
  λ w, match m w with
       | (Ok a, w') => k a w'
       | (Raise e, w') => (Raise e, w')
       end.

Notation "'do!' x ← m ; k" := (bind m (λ x, k))
  (at level 10, x name, m at level 100, k at level 200).
Notation "'run!' m ; k" := (bind m (λ _, k))
  (at level 10, m at level 100, k at level 200).

Definition lift {A} (r : result A) : M A := λ w, (r, w).

Definition get_character_df : M DataFrame := λ w, (Ok (character_df w), w).

Definition set_character_df (df : DataFrame) : M unit :=
  λ w, (Ok tt, mkWorld df (folders w) (warnings w) (calls w)).

Definition record_call (c : call) : M unit :=
  λ w, (Ok tt, mkWorld (character_df w) (folders w) (warnings w) (calls w ++ [c])).

Definition log_warning (file_name folder : string) (e : exn) : M unit :=
  λ w, (Ok tt, mkWorld (character_df w) (folders w)
                 (warnings w ++ [(file_name, folder, e)]) (calls w)).

(** [try: body except Exception as e: handler] *)
Definition try_except {A} (body : M A) (handler : exn → M A) : M A :=
  λ w, match body w with
       | (Ok a, w') => (Ok a, w')
       | (Raise e, w') => handler e w'
       end.

(** [for x in l: body] *)
Fixpoint for_each {A} (l : list A) (body : A → M unit) : M unit :=
  match l with
  | [] => ret tt
  | x :: l' => run! body x; for_each l' body
  end.

(** ** The resolver: [find_character_info] *)

Section Resolver.

(** The two abstract methods the resolver delegates to. *)
Variable load_unnamed_npc : string → string → Z → string → gmap string pyval.
Variable find_best_voice_model : string → Z → string → string.

(** [l[i]] *)
Definition subscript {A} (l : list A) (i : nat) : result A :=
  match l !! i with
  | Some x => Ok x
  | None => Raise IndexError
  end.

(** [race.split('<')[1].split('Race ')[0]] *)
Definition parse_race (race : string) : result string :=
  try! after ← subscript (Py.split "<" race) 1;
  subscript (Py.split "Race " after) 0.

(** [d[key]] on a dict *)
Definition dict_get (d : gmap string pyval) (key : string) : result pyval :=
  match d !! key with
  | Some v => Ok v
  | None => Raise (KeyError key)
  end.

(** [v is None or pd.isnull(v) or v == ''] *)
Definition voice_model_unset (v : pyval) : bool :=
  bool_decide (v = PyNone) || isna v || bool_decide (v = PyStr "").

Definition find_character_info (base_id character_name race : string)
    (gender : Z) (ingame_voice_model : string) : M (gmap string pyval * bool) :=
  do! character_race ← lift (parse_race race);
  do! df ← get_character_df;
  do! matcher ← lift (Gameable._get_matching_df_rows_matcher df base_id
                        character_name character_race);
  match matcher with
  | None =>
      run! record_call (LoadUnnamedNpc character_name character_race gender
                         ingame_voice_model);
      let character_info :=
        load_unnamed_npc character_name character_race gender ingame_voice_model in
      ret (character_info, true)
  | Some m =>
      do! df ← get_character_df;
      let result := Pandas.select m (rows df) in
      do! row ← lift (subscript result 0);
      let character_info := Pandas.to_record (columns df) row in
      do! voice_model ← lift (dict_get character_info "voice_model");
      if voice_model_unset voice_model then
        run! record_call (FindBestVoiceModel race gender ingame_voice_model);
        let best := find_best_voice_model race gender ingame_voice_model in
        ret (<["voice_model" := PyStr best]> character_info, false)
      else ret (character_info, false)
  end.

(** The answer and the collaborator calls of one run, read off the
    table. *)
Definition outcome (df : DataFrame) (base_id name race : string) (gender : Z)
    (voice : string) : result (gmap string pyval * bool) * list call :=
  match parse_race race with
  | Raise e => (Raise e, [])
  | Ok tok =>
      match Gameable._get_matching_df_rows_matcher df base_id name tok with
      | Raise e => (Raise e, [])
      | Ok None =>
          (Ok (load_unnamed_npc name tok gender voice, true),
           [LoadUnnamedNpc name tok gender voice])
      | Ok (Some m) =>
          match subscript (Pandas.select m (rows df)) 0 with
          | Raise e => (Raise e, [])
          | Ok row =>
              let info := Pandas.to_record (columns df) row in
              match dict_get info "voice_model" with
              | Raise e => (Raise e, [])
              | Ok v =>
                  if voice_model_unset v
                  then (Ok (<["voice_model" :=
                               PyStr (find_best_voice_model race gender voice)]> info,
                            false),
                        [FindBestVoiceModel race gender voice])
                  else (Ok (info, false), [])
              end
          end
      end
  end.

End Resolver.

(** ** The ingestor: [__apply_character_overrides] *)

Module Ingestor.

(** [os.path.splitext(name)[1]] for a bare file name: from the last dot
    on, unless only dots precede it. *)
Fixpoint rfind_dot (s : string) : option nat :=
  match s with
  | EmptyString => None
  | String c s' =>
      match rfind_dot s' with
      | Some i => Some (S i)
      | None => if Ascii.eqb c "." then Some 0 else None
      end
  end.

Fixpoint all_dots (n : nat) (s : string) : bool :=
  match n, s with
  | S n', String c s' => Ascii.eqb c "." && all_dots n' s'
  | _, _ => true
  end.

Definition extension (name : string) : string :=
  match rfind_dot name with
  | Some d => if all_dots d name then "" else Py.drop_chars d name
  | None => ""
  end.

(** One candidate record: a JSON object, or row [i] of the table read
    from a CSV override ([extra_df.iloc[i]]). *)
Inductive candidate : Type :=
| JsonRecord (content : gmap string (option string))
| CsvRecord (cols : list string) (row : list pyval).

Definition of_json (v : option string) : pyval :=
  match v with
  | Some s => PyStr s
  | None => PyNone
  end.

Definition lookup (c : candidate) (key : string) : option pyval :=
  match c with
  | JsonRecord content => of_json <$> content !! key
  | CsvRecord cols row => Pandas.cell cols row key
  end.

(** [c.get(key, dflt)] *)
Definition get (c : candidate) (key : string) (dflt : pyval) : pyval :=
  default dflt (lookup c key).

Definition not_empty (v : pyval) : bool := negb (bool_decide (v = PyStr "")).

(** The guard of the update: [value and value != ""] for JSON,
    [value and not pd.isna(value) and value != ""] for CSV. *)
Definition overwrites (c : candidate) (value : pyval) : bool :=
  match c with
  | JsonRecord _ => truthy value && not_empty value
  | CsvRecord _ _ => truthy value && negb (isna value) && not_empty value
  end.

(** The matcher called on values taken from a record: slicing a value
    that is not a string raises [TypeError], [.lower()] on one raises
    [AttributeError]. *)
Definition call_matcher (df : DataFrame) (base_id name race : pyval)
    : result (option mask) :=
  match base_id with
  | PyStr b =>
      match name, race with
      | PyStr n, PyStr r => Gameable._get_matching_df_rows_matcher df b n r
      | _, _ =>
          try! _ids ← Pandas.getitem df "base_id";
          try! _names ← Pandas.getitem df "name";
          match name with
          | PyStr _ => try! _races ← Pandas.getitem df "race"; Raise AttributeError
          | _ => Raise AttributeError
          end
      end
  | _ => Raise TypeError
  end.

(** The new row: [[c.get(entry, "") for entry in headers]]. *)
Definition new_row (c : candidate) (character_df_column_headers : list string)
    : list pyval :=
  map (λ entry, get c entry (PyStr "")) character_df_column_headers.

(** The update loop over the headers, with the mask found beforehand. *)
Fixpoint update_row (c : candidate) (m : mask)
    (character_df_column_headers : list string) (df : DataFrame) : DataFrame :=
  match character_df_column_headers with
  | [] => df
  | entry :: headers' =>
      let value := get c entry PyNone in
      update_row c m headers'
        (if overwrites c value then Pandas.set_loc df m entry value else df)
  end.

(** The body of the loop over the records of one file. *)
Definition apply_candidate (character_df_column_headers : list string)
    (c : candidate) : M unit :=
  let name := get c "name" (PyStr "") in
  let base_id := get c "base_id" (PyStr "") in
  let race := get c "race" (PyStr "") in
  do! df ← get_character_df;
  do! matcher ← lift (call_matcher df base_id name race);
  match matcher with
  | None =>
      let row := new_row c character_df_column_headers in
      do! df' ← lift (Pandas.append_row df row);
      set_character_df df'
  | Some m => set_character_df (update_row c m character_df_column_headers df)
  end.

Definition json_records (j : json) : result (list json_item) :=
  match j with
  | JDict content => Ok [JDictItem content]
  | JList items => Ok items
  | JAtom => Raise TypeError
  end.

Definition apply_json_item (headers : list string) (item : json_item) : M unit :=
  match item with
  | JDictItem content => apply_candidate headers (JsonRecord content)
  | JOtherItem => lift (Raise AttributeError)
  end.

(** The body of the [try] block for one directory entry. *)
Definition apply_file (headers : list string) (f : file) : M unit :=
  let ext := extension (file_name f) in
  if String.eqb ext ".json" then
    do! json_object ← lift (json_load f);
    do! items ← lift (json_records json_object);
    for_each items (apply_json_item headers)
  else if String.eqb ext ".csv" then
    do! extra_df ← lift (read_csv f);
    for_each (rows extra_df)
      (λ row, apply_candidate headers (CsvRecord (columns extra_df) row))
  else ret tt.

Definition exists_folder (folder : string) : M bool :=
  λ w, (Ok (bool_decide (is_Some (folders w !! folder))), w).

Definition makedirs (folder : string) : M unit :=
  λ w, (Ok tt, mkWorld (character_df w) (<[folder := []]> (folders w))
                 (warnings w) (calls w)).

Definition listdir (folder : string) : M (list file) :=
  λ w, match folders w !! folder with
       | Some files => (Ok files, w)
       | None => (Raise NotFoundError, w)
       end.

Definition __apply_character_overrides (overrides_folder : string)
    (character_df_column_headers : list string) : M unit :=
  do! present ← exists_folder overrides_folder;
  run! (if present then ret tt else makedirs overrides_folder);
  do! override_files ← listdir overrides_folder;
  for_each override_files (λ f,
    try_except (apply_file character_df_column_headers f)
               (λ e, log_warning (file_name f) overrides_folder e)).

End Ingestor.

Module Worlds.

Definition lydia_world : world := mkWorld Examples.lydia_table ∅ [] [].

End Worlds.

(** ** A row queried by its own name, id and race *)

Module SelfQuery.

Definition tier1 (df : DataFrame) (base_id name race : string)
    (row : list pyval) : bool :=
  Spec.name_match df name row && Spec.id_match df base_id row
  && Spec.race_match df race row.

(** [(base_id, name, race)] is what [row] holds in its three structural
    columns. *)
Definition own_identity (df : DataFrame) (row : list pyval)
    (base_id name race : string) : Prop :=
  Spec.field df row "base_id" = PyStr base_id ∧
  Spec.field df row "name" = PyStr name ∧
  Spec.field df row "race" = PyStr race.

(** No other row agrees with the identity on name, id and race (as the
    matcher compares them). *)
Definition unique_row (df : DataFrame) (i : nat) (base_id name race : string) : Prop :=
  ∀ j row', rows df !! j = Some row' → j ≠ i → tier1 df base_id name race row' = false.

(** The matcher returns row [i], and the tier it reports is the first. *)
Definition found_at_tier1 (df : DataFrame) (i : nat) (row : list pyval)
    (base_id name race : string) : Prop :=
  Gameable.matched_by df base_id name race = Ok (Some "name, ID, race") ∧
  ∃ m, Gameable._get_matching_df_rows_matcher df base_id name race = Ok (Some m) ∧
       m !! i = Some true ∧ Pandas.select m (rows df) = [row].

(** The property as the specification states it, for row [i] of [df]. *)
Definition self_query_tier1 (df : DataFrame) (i : nat) : Prop :=
  ∀ row base_id name race,
    rows df !! i = Some row →
    own_identity df row base_id name race →
    unique_row df i base_id name race →
    found_at_tier1 df i row base_id name race.

(** A registry row whose id keeps a load-order prefix: eight significant
    characters. *)
Definition long_id_table : DataFrame :=
  mkDataFrame ["name"; "base_id"; "race"; "voice_model"]
    [ [PyStr "Curie"; PyStr "12345678"; PyStr "Synth"; PyStr "curie"] ].

End SelfQuery.

(** The world after further collaborator calls. *)
Definition add_calls (w : world) (cs : list call) : world :=
  mkWorld (character_df w) (folders w) (warnings w) (calls w ++ cs).


(** The characters a list of pieces accounts for in the string it was
    split from: its characters, and one at least per separator. *)
Fixpoint weight (pieces : list string) : nat :=
  match pieces with
  | [] => 0
  | x :: rest =>
      match rest with
      | [] => String.length x
      | _ :: _ => String.length x + 1 + weight rest
      end
  end.

(** ** Well-formed tables and what an override supplies *)

(** Distinct headers, and every row as wide as the header list. *)
Definition wf (df : DataFrame) : Prop :=
  NoDup (columns df) ∧ Forall (λ row, length row = length (columns df)) (rows df).

(** The world with another table. *)
Definition with_df (w : world) (df : DataFrame) : world :=
  mkWorld df (folders w) (warnings w) (calls w).

(** The candidate supplies a non-empty, non-null value. *)
Definition supplied (v : option pyval) : bool :=
  match v with
  | Some (PyStr s) => negb (String.eqb s "")
  | _ => false
  end.

(** What the update loop does to one selected row. *)
Fixpoint upd_row (c : Ingestor.candidate) (headers cols : list string)
    (row : list pyval) : list pyval :=
  match headers with
  | [] => row
  | entry :: headers' =>
      let value := Ingestor.get c entry PyNone in
      upd_row c headers' cols
        (if Ingestor.overwrites c value
         then match Pandas.index_of entry cols with
              | Some j => <[j := value]> row
              | None => row
              end
         else row)
  end.


(** The identity a candidate is matched on. *)
Definition cand_name (c : Ingestor.candidate) : pyval := Ingestor.get c "name" (PyStr "").
Definition cand_base_id (c : Ingestor.candidate) : pyval := Ingestor.get c "base_id" (PyStr "").
Definition cand_race (c : Ingestor.candidate) : pyval := Ingestor.get c "race" (PyStr "").

Definition match_candidate (df : DataFrame) (c : Ingestor.candidate) : result (option mask) :=
  Ingestor.call_matcher df (cand_base_id c) (cand_name c) (cand_race c).

(** ** Applying overrides twice *)

(** One pass of [__init__] over a folder: the header list is the table's
    own. *)
Definition ingest (folder : string) : M unit :=
  do! df ← get_character_df;
  Ingestor.__apply_character_overrides folder (columns df).

(** The two passes of [__init__]: the mod's folder, then the user's. *)
Definition apply_all_overrides (mod_overrides_folder personal_overrides_folder : string)
    : M unit :=
  run! ingest mod_overrides_folder;
  ingest personal_overrides_folder.

(** A second pass over the same folder leaves the table of the first. *)
Definition idempotent_pass (folder : string) (w : world) : Prop :=
  character_df (ingest folder (ingest folder w).2).2
  = character_df (ingest folder w).2.

Module Twins.

Definition curie : list pyval :=
  [PyStr "Curie"; PyStr "1"; PyStr "Synth"; PyStr "curie"].

(** A registry that lists the same character twice. *)
Definition table : DataFrame :=
  mkDataFrame ["name"; "base_id"; "race"; "voice_model"] [curie; curie].

Definition override : gmap string (option string) :=
  {[ "name" := Some "Curie"; "base_id" := Some "1"; "race" := Some "Synth" ]}.

Definition override_file : file :=
  mkFile "curie.json" (Ok (JDict override)) (Raise DecodeError).

Definition start : world :=
  mkWorld table {[ "character_overrides" := [override_file] ]} [] [].

End Twins.

(** ** One pass over a folder, file by file *)

(** The world when the loop over the files starts: a missing folder has
    been created, empty. *)
Definition ensure_folder (folder : string) (w : world) : world :=
  match folders w !! folder with
  | Some _ => w
  | None => mkWorld (character_df w) (<[folder := []]> (folders w)) (warnings w) (calls w)
  end.

(** The world after one file: what the file's records did up to the end of
    the file or up to the exception, plus the warning in the second case. *)
Definition after_file (folder : string) (headers : list string) (w : world) (f : file)
    : world :=
  match Ingestor.apply_file headers f w with
  | (Ok _, w') => w'
  | (Raise e, w') =>
      mkWorld (character_df w') (folders w') (warnings w' ++ [(file_name f, folder, e)])
        (calls w')
  end.


Module Packs.


Definition broken : file :=
  mkFile "broken.json" (Raise DecodeError) (Raise DecodeError).

Definition lydia_voice : file :=
  mkFile "lydia.json"
    (Ok (JDict {[ "name" := Some "Lydia"; "voice_model" := Some "NewVoice" ]}))
    (Raise DecodeError).

Definition serana : file :=
  mkFile "serana.json" (Ok (JDict {[ "name" := Some "Serana" ]})) (Raise DecodeError).

Definition start : world :=
  mkWorld Examples.lydia_table {[ "character_overrides" := [broken; lydia_voice] ]} [] [].

Definition serana_start : world :=
  mkWorld Examples.lydia_table {[ "character_overrides" := [serana] ]} [] [].

End Packs.

(** ** Race descriptors of the game: [pre<TOKENRace rest] *)

Fixpoint has_char (c : ascii) (s : string) : bool :=
  match s with
  | EmptyString => false
  | String c' s' => Ascii.eqb c c' || has_char c s'
  end.

(** No occurrence of [sep] starts inside [a] when [a] is followed by
    [tail]. *)
Fixpoint no_sep_start (sep a tail : string) : bool :=
  match a with
  | EmptyString => true
  | String _ a' => negb (String.prefix sep (a +:+ tail)) && no_sep_start sep a' tail
  end.

(** The descriptor [pre ++ "<" ++ tok ++ "Race " ++ rest], cut at the
    first '<' and at the 'Race ' next to the token: no '<' before the
    token or in it, and no space in it. *)
Definition tagged (race pre tok rest : string) : Prop :=
  race = pre +:+ "<" +:+ tok +:+ "Race " +:+ rest ∧
  has_char "<" pre = false ∧ has_char "<" tok = false ∧ has_char " " tok = false.

(** ** Scenarios of the specification *)

Module Scenarios.

Definition nord_race_table : DataFrame :=
  mkDataFrame ["base_id"; "name"; "race"; "voice_model"]
    [ [PyStr "000A2F3C"; PyStr "Lydia"; PyStr "NordRace"; PyStr ""] ].

Definition descent_table : DataFrame :=
  mkDataFrame ["base_id"; "name"; "race"; "voice_model"]
    [ [PyStr "00012AB3"; PyStr "Ysolda"; PyStr "Nord"; PyStr "FemaleYoungEager"];
      [PyStr "00099999"; PyStr "Ysolda"; PyStr "Nord"; PyStr ""] ].

End Scenarios.

(** ** What ingestion keeps *)

Definition is_str (v : pyval) : bool :=
  match v with PyStr _ => true | _ => false end.

(** From [w] to [w']: the table is still well formed, has the same
    headers and no fewer rows; no collaborator was called; warnings were
    only added. *)
Definition table_kept (w w' : world) : Prop :=
  wf (character_df w') ∧
  columns (character_df w') = columns (character_df w) ∧
  length (rows (character_df w)) ≤ length (rows (character_df w')) ∧
  calls w' = calls w ∧
  warnings w `prefix_of` warnings w'.

(** What every step of a pass keeps, from the world [w0] the loop over the
    files starts in. *)
Definition pass_kept (w0 w : world) : Prop :=
  table_kept w0 w ∧ folders w = folders w0.

(** A file the ingestor has no branch for. *)
Definition other_extension (f : file) : Prop :=
  Ingestor.extension (file_name f) ≠ ".json" ∧ Ingestor.extension (file_name f) ≠ ".csv".

(** ** Documents, record by record *)








(** A predicate [p] on a table and the predicate [p'] that stands at its
    place once row [i] has changed from [row] to [row']: the changed row
    keeps passing, and on the other rows [p'] is [p], or fails everywhere. *)
Definition related (df : DataFrame) (i : nat) (row row' : list pyval)
    (p p' : list pyval → bool) : Prop :=
  (p row = true → p' row' = true) ∧
  ((∀ j r, j ≠ i → rows df !! j = Some r → p' r = p r) ∨
   (∀ j r, j ≠ i → rows df !! j = Some r → p' r = false)).



Module Reruns.

(** An override that only carries an id, with a load-order prefix. *)
Definition long_id_only : file :=
  mkFile "lydia.json" (Ok (JDict {[ "base_id" := Some "FF0A2F3C" ]})) (Raise DecodeError).

Definition long_id_start : world :=
  mkWorld Examples.lydia_table {[ "character_overrides" := [long_id_only] ]} [] [].

(** Two records of one document: the second renames the row the first is
    matched to. *)
Definition rename_pack : file :=
  mkFile "pack.json"
    (Ok (JList [ JDictItem {[ "name" := Some "Lydia"; "voice_model" := Some "X" ]};
                 JDictItem {[ "name" := Some "Lidia"; "base_id" := Some "A2F3C" ]} ]))
    (Raise DecodeError).

Definition rename_start : world :=
  mkWorld Examples.lydia_table {[ "character_overrides" := [rename_pack] ]} [] [].


Definition lydia_csv : file :=
  mkFile "lydia.csv" (Raise DecodeError)
    (Ok (mkDataFrame ["name"; "base_id"; "race"; "voice_model"]
           [[PyStr "Lydia"; PyStr "A2F3C"; PyStr "Nord"; PyStr "NewVoice"]])).

Definition csv_start : world :=
  mkWorld Examples.lydia_table {[ "character_overrides" := [lydia_csv] ]} [] [].



End Reruns.

(** * Properties *)

(** ** Masks *)

Section MaskLemmas.

Context {A : Type}.
Implicit Types (p q : A → bool) (l : list A).

Lemma mand_map p q l :
  Pandas.mand (map p l) (map q l) = map (λ x, p x && q x) l.
Proof.
  unfold Pandas.mand. induction l as [|x l IH]; simpl; [done|]. by rewrite IH.
Qed.

Lemma any_map p l : Pandas.any (map p l) = existsb p l.
Proof.
  unfold Pandas.any. induction l as [|x l IH]; simpl; [done|]. by rewrite IH.
Qed.

Lemma count_map p l :
  Pandas.count (map p l) = length (filter (λ x, p x = true) l).
Proof.
  unfold Pandas.count. induction l as [|x l IH]; simpl; [done|].
  rewrite !filter_cons. cbv beta.
  destruct (decide (p x = true)); simpl; by rewrite IH.
Qed.

Lemma select_map_length p l :
  length (Pandas.select (map p l) l) = Pandas.count (map p l).
Proof.
  unfold Pandas.count. induction l as [|x l IH]; simpl; [done|].
  rewrite filter_cons. cbv beta.
  destruct (decide (p x = true)) as [Hp|Hp].
  - rewrite Hp. simpl. by rewrite IH.
  - destruct (p x); [done|]. by rewrite IH.
Qed.

End MaskLemmas.

Lemma any_replicate_false n : Pandas.any (replicate n false) = false.
Proof. unfold Pandas.any. induction n; simpl; done. Qed.

(** ** Columns read row by row *)

Lemma getitem_fields df c :
  is_Some (Pandas.index_of c (columns df)) →
  Pandas.getitem df c = Ok (map (λ row, Spec.field df row c) (rows df)).
Proof.
  intros [j Hj]. unfold Pandas.getitem, Spec.field, Pandas.cell.
  rewrite Hj. simpl. done.
Qed.

Lemma eq_lower_map {A} (f : A → string) (l : list A) s :
  Gameable.eq_lower (map f l) s = map (λ x, Spec.same_ci (f x) s) l.
Proof. unfold Gameable.eq_lower. by rewrite map_map. Qed.

Lemma partial_id_at_rows df base_id n :
  Gameable.partial_id_at (map (λ row, Spec.field df row "base_id") (rows df)) base_id n
  = Spec.selector df (Spec.partial_id_match df n base_id).
Proof.
  unfold Gameable.partial_id_at, Spec.selector.
  rewrite map_map, eq_lower_map. done.
Qed.

(** The loop over 5, 4, 3 computes the mask of the length chosen by
    existence. *)
Lemma partial_id_match_rows df base_id :
  Gameable.partial_id_match (map (λ row, Spec.field df row "base_id") (rows df)) base_id
  = Spec.selector df (Spec.partial_id_match df (Spec.chosen_n df base_id) base_id).
Proof.
  unfold Gameable.partial_id_match. simpl.
  rewrite any_replicate_false.
  rewrite !partial_id_at_rows.
  unfold Spec.chosen_n, Spec.selector.
  rewrite !any_map.
  destruct (existsb (Spec.partial_id_match df 5 base_id) (rows df)); [done|].
  destruct (existsb (Spec.partial_id_match df 4 base_id) (rows df)); [done|].
  by destruct (existsb (Spec.partial_id_match df 3 base_id) (rows df)).
Qed.

Lemma count_selector df p :
  (Pandas.count (Spec.selector df p) =? 1) = Spec.selects_one df p.
Proof. unfold Spec.selector, Spec.selects_one. by rewrite count_map. Qed.

(** The seven masks of [ordered_matchers] are the selectors of the seven
    tiers, in the same order. *)
Lemma ordered_matchers_tiers df base_id name race :
  Spec.has_key_columns df →
  ∃ matchers,
    Gameable.ordered_matchers df base_id name race = Ok matchers ∧
    matchers.*2 = map (Spec.selector df) (Spec.tiers df base_id name race) ∧
    matchers.*1 = ["name, ID, race"; "name, ID"; "name, partial ID, race";
                   "name, partial ID"; "name, race"; "name"; "ID"].
Proof.
  intros (Hid & Hname & Hrace).
  unfold Gameable.ordered_matchers.
  rewrite (getitem_fields _ _ Hid), (getitem_fields _ _ Hname),
    (getitem_fields _ _ Hrace). simpl.
  eexists. split; [reflexivity|]. split; [|reflexivity].
  rewrite partial_id_match_rows.
  rewrite !map_map, !eq_lower_map. unfold Spec.selector.
  rewrite !mand_map. simpl. unfold Gameable.full_id_len. reflexivity.
Qed.

Lemma first_single_find df (matchers : list (string * mask)) ps :
  matchers.*2 = map (Spec.selector df) ps →
  snd <$> Gameable.first_single matchers
  = Spec.selector df <$> List.find (Spec.selects_one df) ps.
Proof.
  revert ps. induction matchers as [|[label m] matchers IH]; intros [|p ps] Heq;
    simpl in *; try done.
  injection Heq as -> Hrest.
  rewrite count_selector. destruct (Spec.selects_one df p); [done|].
  by apply IH.
Qed.

Lemma find_Some_first {A} (f : A → bool) (l : list A) x :
  List.find f l = Some x →
  ∃ k, l !! k = Some x ∧ f x = true ∧
       ∀ j y, j < k → l !! j = Some y → f y = false.
Proof.
  induction l as [|z l IH]; simpl; [done|].
  destruct (f z) eqn:Hz.
  - intros [= ->]. exists 0. repeat split; [done|]. intros j y Hj. lia.
  - intros (k & Hk & Hx & Hbefore)%IH. exists (S k). repeat split; [done..|].
    intros [|j] y Hj; simpl; [by intros [= <-]|]. apply Hbefore. lia.
Qed.

Lemma find_None_all {A} (f : A → bool) (l : list A) y :
  List.find f l = None → y ∈ l → f y = false.
Proof.
  intros Hnone Hy%list_elem_of_In. exact (List.find_none f l Hnone y Hy).
Qed.

(** C1: on a table that has the columns [base_id], [name] and [race], the
    matcher returns what [find_match] describes: the selector of the first
    of the seven tiers, taken in the fixed order name-id-race, name-id,
    name-partial-race, name-partial, name-race, name, id, that selects
    exactly one row; a tier with no row or with several is passed over,
    and the result is [None] when every tier is passed over. *)
Theorem matcher_first_unique_tier df base_id name race :
  Spec.has_key_columns df →
  Gameable._get_matching_df_rows_matcher df base_id name race
  = Ok (Spec.find_match df base_id name race) ∧
  (∀ m, Spec.find_match df base_id name race = Some m →
     ∃ k p, Spec.tiers df base_id name race !! k = Some p ∧
       m = Spec.selector df p ∧ Spec.selects_one df p = true ∧
       ∀ j p', j < k → Spec.tiers df base_id name race !! j = Some p' →
         Spec.selects_one df p' = false) ∧
  (Spec.find_match df base_id name race = None →
     ∀ p, p ∈ Spec.tiers df base_id name race → Spec.selects_one df p = false).
Proof.
  intros Hcols. split; [|split].
  - destruct (ordered_matchers_tiers df base_id name race Hcols)
      as (matchers & Hom & Hmasks & _).
    unfold Gameable._get_matching_df_rows_matcher, Spec.find_match.
    rewrite Hom. unfold rbind. f_equal. exact (first_single_find _ _ _ Hmasks).
  - unfold Spec.find_match. intros m Hm.
    destruct (List.find _ _) as [p|] eqn:Hfind; [|done].
    injection Hm as <-.
    destruct (find_Some_first _ _ _ Hfind) as (k & Hk & Hp & Hbefore).
    by exists k, p.
  - unfold Spec.find_match. intros Hnone p Hp.
    destruct (List.find _ _) eqn:Hfind; [done|].
    by eapply find_None_all.
Qed.

Lemma lydia_has_key_columns : Spec.has_key_columns Examples.lydia_table.
Proof. repeat split; eexists; reflexivity. Defined.

Lemma matcher_first_unique_tier_witness :
  Gameable._get_matching_df_rows_matcher Examples.lydia_table "FF01A697" "guard" "Nord"
  = Ok (Some [false; false; true]).
Proof.
  destruct (matcher_first_unique_tier Examples.lydia_table "FF01A697" "guard" "Nord"
              lydia_has_key_columns) as (Hrun & _).
  rewrite Hrun. reflexivity.
Defined.

(** ** The partial-id phase *)

Lemma chosen_n_cases df base_id :
  let n := Spec.chosen_n df base_id in
  (n = 5 ∧ existsb (Spec.partial_id_match df 5 base_id) (rows df) = true) ∨
  (n = 4 ∧ existsb (Spec.partial_id_match df 5 base_id) (rows df) = false
         ∧ existsb (Spec.partial_id_match df 4 base_id) (rows df) = true) ∨
  (n = 3 ∧ existsb (Spec.partial_id_match df 5 base_id) (rows df) = false
         ∧ existsb (Spec.partial_id_match df 4 base_id) (rows df) = false).
Proof.
  unfold Spec.chosen_n.
  destruct (existsb (Spec.partial_id_match df 5 base_id) (rows df)); [by left|].
  destruct (existsb (Spec.partial_id_match df 4 base_id) (rows df)).
  - right; left; done.
  - right; right; done.
Qed.

Lemma existsb_false_elem {A} (p : A → bool) (l : list A) x :
  existsb p l = false → x ∈ l → p x = false.
Proof.
  intros Hex Hx. apply list_elem_of_In in Hx.
  destruct (p x) eqn:Hp; [|done].
  assert (existsb p l = true) by (apply existsb_exists; eauto). congruence.
Qed.

Lemma existsb_true_elem {A} (p : A → bool) (l : list A) :
  existsb p l = true → ∃ x, x ∈ l ∧ p x = true.
Proof.
  intros (x & Hx & Hp)%existsb_exists. exists x. by rewrite list_elem_of_In.
Qed.

(** C4: the partial-id predicate is fixed first, by existence only.  The
    loop leaves in [partial_id_match] the mask of the length [n] that is
    the first of 5, 4, 3 under which some row matches (no row matches
    under a longer length; under [n] at least one row does, possibly
    several, unless none matches at all and [n] is 3).  A row with a string
    id is compared on the zero-stripped last [k] characters, on its whole
    zero-stripped id when it is shorter than [k], ignoring case.  Tiers 3
    and 4 then combine the mask of that [n] with name and race. *)
Theorem partial_id_fixed_by_existence df base_id name race :
  Spec.has_key_columns df →
  let n := Spec.chosen_n df base_id in
  (∃ ids, Pandas.getitem df "base_id" = Ok ids ∧
     Gameable.partial_id_match ids base_id
     = Spec.selector df (Spec.partial_id_match df n base_id)) ∧
  n ∈ [5; 4; 3] ∧
  (∀ k row, k ∈ [5; 4; 3] → n < k → row ∈ rows df →
     Spec.partial_id_match df k base_id row = false) ∧
  (n ≠ 3 → ∃ row, row ∈ rows df ∧ Spec.partial_id_match df n base_id row = true) ∧
  (∀ k s, Gameable.partial_key k (PyStr s)
     = Py.lstrip0 (if k <=? String.length s then Py.suffix k s else s)) ∧
  (∃ matchers, Gameable.ordered_matchers df base_id name race = Ok matchers ∧
     matchers !! 2 = Some ("name, partial ID, race",
       Spec.selector df (λ row, Spec.name_match df name row
                                && Spec.partial_id_match df n base_id row
                                && Spec.race_match df race row)) ∧
     matchers !! 3 = Some ("name, partial ID",
       Spec.selector df (λ row, Spec.name_match df name row
                                && Spec.partial_id_match df n base_id row))).
Proof.
  intros Hcols n. subst n. pose proof Hcols as (Hid & _ & _).
  pose proof (chosen_n_cases df base_id) as Hc. cbv zeta in Hc.
  split; [|split; [|split; [|split; [|split]]]].
  - eexists. split; [by apply getitem_fields|]. apply partial_id_match_rows.
  - destruct Hc as [[-> _]|[[-> _]|[-> _]]]; set_solver.
  - intros k row Hk Hlt Hrow.
    destruct Hc as [[Hn _]|[(Hn & H5 & _)|(Hn & H5 & H4)]];
      rewrite Hn in Hlt;
      repeat (apply elem_of_cons in Hk as [->|Hk]); try lia;
      try (by apply elem_of_nil in Hk);
      eauto using existsb_false_elem.
  - intros Hn3.
    destruct Hc as [[Hn H5]|[(Hn & _ & H4)|(Hn & _)]];
      try congruence; rewrite Hn; by apply existsb_true_elem.
  - intros k s. unfold Gameable.partial_key, Gameable.remove_leading_zeros. simpl.
    by destruct (k <=? String.length s).
  - destruct (ordered_matchers_tiers df base_id name race Hcols)
      as (matchers & Hom & Hmasks & Hlabels).
    exists matchers. split; [done|].
    do 8 (destruct matchers as [|[? ?] matchers]; try discriminate Hlabels).
    simpl in Hmasks, Hlabels. simplify_eq. done.
Qed.

Lemma partial_id_fixed_by_existence_witness :
  Spec.chosen_n Examples.lydia_table "FF01A696" ∈ [5; 4; 3] ∧
  ∃ ids, Pandas.getitem Examples.lydia_table "base_id" = Ok ids ∧
    Gameable.partial_id_match ids "FF01A696" = [false; true; false].
Proof.
  pose proof (partial_id_fixed_by_existence Examples.lydia_table "FF01A696" "guard"
                "Nord" lydia_has_key_columns) as (Hmask & Hn & _).
  split; [exact Hn|].
  destruct Hmask as (ids & Hids & Hpm). exists ids. split; [exact Hids|].
  rewrite Hpm. reflexivity.
Defined.

(** ** Identifiers and leading zeros *)

Lemma lstrip0_length s : String.length (Py.lstrip0 s) ≤ String.length s.
Proof.
  induction s as [|c s IH]; simpl; [done|].
  destruct (Ascii.eqb c "0"); simpl; lia.
Qed.

Lemma lstrip0_drop_chars k s :
  k + String.length (Py.lstrip0 s) ≤ String.length s →
  Py.lstrip0 (Py.drop_chars k s) = Py.lstrip0 s.
Proof.
  revert s. induction k as [|k IH]; intros [|c s]; simpl; try done.
  destruct (Ascii.eqb c "0"); simpl; intros Hlen; [apply IH|]; lia.
Qed.

(** An id with at most [n] significant characters is not changed by
    keeping its last [n] characters before the zeros are stripped. *)
Lemma lstrip0_suffix n s :
  String.length (Py.lstrip0 s) ≤ n →
  Py.lstrip0 (Py.suffix n s) = Py.lstrip0 s.
Proof.
  intros Hn. unfold Py.suffix. apply lstrip0_drop_chars.
  pose proof (lstrip0_length s). lia.
Qed.

Lemma same_ci_refl s : Spec.same_ci s s = true.
Proof. unfold Spec.same_ci. apply String.eqb_refl. Qed.

(** ** Masks selecting one row *)

Lemma filter_none {A} (p : A → bool) (l : list A) :
  (∀ j y, l !! j = Some y → p y = false) →
  filter (λ x, p x = true) l = [].
Proof.
  induction l as [|x l IH]; intros Hall; [done|].
  rewrite filter_cons. cbv beta.
  rewrite (Hall 0 x eq_refl). rewrite decide_False by done.
  apply IH. intros j y Hj. exact (Hall (S j) y Hj).
Qed.

Lemma filter_only {A} (p : A → bool) (l : list A) i x :
  l !! i = Some x → p x = true →
  (∀ j y, l !! j = Some y → j ≠ i → p y = false) →
  filter (λ x, p x = true) l = [x].
Proof.
  revert i. induction l as [|z l IH]; intros [|i] Hi Hp Hothers; simpl in Hi;
    try done.
  - injection Hi as ->. rewrite filter_cons. cbv beta.
    rewrite decide_True by done. f_equal.
    apply filter_none. intros j y Hj. apply (Hothers (S j) y Hj). lia.
  - rewrite filter_cons. cbv beta.
    rewrite (Hothers 0 z eq_refl) by lia. rewrite decide_False by done.
    apply (IH i Hi Hp). intros j y Hj Hne. apply (Hothers (S j) y Hj). lia.
Qed.

Lemma select_map_filter {A} (p : A → bool) (l : list A) :
  Pandas.select (map p l) l = filter (λ x, p x = true) l.
Proof.
  induction l as [|x l IH]; simpl; [done|].
  rewrite filter_cons. cbv beta.
  destruct (decide (p x = true)) as [Hp|Hp].
  - rewrite Hp. by rewrite IH.
  - destruct (p x); [done|]. by rewrite IH.
Qed.

(** ** A row queried by its own name, id and race *)

(** C5, as stated, fails: the only row of [long_id_table], queried with its
    own name, id and race, is found, but by the tier "name, partial ID,
    race"; the full-id comparison strips the row's whole id and only the
    last six characters of the query. *)
Lemma self_query_long_id_not_tier1 :
  ¬ SelfQuery.self_query_tier1 SelfQuery.long_id_table 0.
Proof.
  intros Hclaim.
  destruct (Hclaim [PyStr "Curie"; PyStr "12345678"; PyStr "Synth"; PyStr "curie"]
              "12345678" "Curie" "Synth") as [Hby _].
  - reflexivity.
  - repeat split.
  - intros [|j] row' Hj Hne; [done|]. by destruct j.
  - vm_compute in Hby. discriminate Hby.
Qed.

Lemma self_query_long_id_tier3 :
  Gameable.matched_by SelfQuery.long_id_table "12345678" "Curie" "Synth"
  = Ok (Some "name, partial ID, race").
Proof. reflexivity. Qed.

(** A row that passes the first tier, alone among the rows, is what the
    matcher returns, at the first tier. *)
Lemma tier1_only_row df i row base_id name race :
  Spec.has_key_columns df →
  rows df !! i = Some row →
  SelfQuery.tier1 df base_id name race row = true →
  SelfQuery.unique_row df i base_id name race →
  SelfQuery.found_at_tier1 df i row base_id name race.
Proof.
  intros Hcols Hi Hself Huniq.
  assert (Hfilter : filter (λ r, SelfQuery.tier1 df base_id name race r = true) (rows df)
                    = [row]) by (by apply (filter_only _ _ i)).
  destruct (ordered_matchers_tiers df base_id name race Hcols)
    as (matchers & Hom & Hmasks & Hlabels).
  destruct matchers as [|[label m] matchers]; [discriminate Hlabels|].
  simpl in Hmasks, Hlabels.
  injection Hmasks as Hm _. injection Hlabels as Hlabel _.
  change (m = Spec.selector df (SelfQuery.tier1 df base_id name race)) in Hm.
  assert (Hcount : (Pandas.count m =? 1) = true).
  { rewrite Hm. unfold Spec.selector. rewrite count_map, Hfilter. done. }
  unfold SelfQuery.found_at_tier1, Gameable.matched_by,
    Gameable._get_matching_df_rows_matcher.
  rewrite Hom. unfold rbind. simpl. rewrite Hcount. simpl.
  split; [by rewrite Hlabel|].
  exists m. split; [done|]. rewrite Hm. unfold Spec.selector. split.
  - rewrite list_lookup_fmap, Hi. simpl. by rewrite Hself.
  - by rewrite select_map_filter.
Qed.

(** A string identity with a short id passes the first tier on a row that
    holds it. *)
Lemma tier1_own_identity df row base_id name race :
  SelfQuery.own_identity df row base_id name race →
  String.length (Py.lstrip0 base_id) ≤ 6 →
  SelfQuery.tier1 df base_id name race row = true.
Proof.
  intros (Hb & Hn & Hr) Hshort.
  unfold SelfQuery.tier1, Spec.name_match, Spec.id_match, Spec.race_match.
  rewrite Hb, Hn, Hr. unfold Gameable.remove_leading_zeros. simpl.
  rewrite (lstrip0_suffix 6 base_id Hshort). by rewrite !same_ci_refl.
Qed.

(** C5, amended: on a table with the three structural columns, a row whose
    name, id and race are strings, whose id has at most six characters
    once its leading zeros are stripped, and which is the only row agreeing
    with that name, id and race, is returned by the matcher for its own
    (id, name, race), at the first tier ("name, ID, race"). *)
Theorem self_query_found_at_tier1 df i row base_id name race :
  Spec.has_key_columns df →
  rows df !! i = Some row →
  SelfQuery.own_identity df row base_id name race →
  String.length (Py.lstrip0 base_id) ≤ 6 →
  SelfQuery.unique_row df i base_id name race →
  SelfQuery.found_at_tier1 df i row base_id name race.
Proof.
  intros Hcols Hi Hown Hshort Huniq.
  apply tier1_only_row; try done. by apply tier1_own_identity.
Qed.

Lemma self_query_found_at_tier1_witness :
  SelfQuery.found_at_tier1 Examples.lydia_table 0
    [PyStr "Lydia"; PyStr "000A2F3C"; PyStr "Nord"; PyStr ""]
    "000A2F3C" "Lydia" "Nord".
Proof.
  apply self_query_found_at_tier1.
  - exact lydia_has_key_columns.
  - reflexivity.
  - repeat split.
  - vm_compute. lia.
  - intros j row' Hj Hne.
    destruct j as [|[|[|j]]]; [done| | |]; simpl in Hj; simplify_eq; reflexivity.
Defined.

(** ** The resolver *)

Lemma add_calls_nil w : add_calls w [] = w.
Proof. destruct w. unfold add_calls. simpl. by rewrite app_nil_r. Qed.

(** A mask the matcher returns selects exactly one row of the table. *)
Lemma first_single_count matchers label m :
  Gameable.first_single matchers = Some (label, m) →
  (label, m) ∈ matchers ∧ Pandas.count m = 1.
Proof.
  induction matchers as [|[l0 m0] matchers IH]; simpl; [done|].
  destruct (Pandas.count m0 =? 1) eqn:Hc.
  - intros [= -> ->]. split; [left|]. by apply Nat.eqb_eq.
  - intros [Hin Hm]%IH. split; [by right|done].
Qed.

Lemma getitem_is_Some df c l :
  Pandas.getitem df c = Ok l → is_Some (Pandas.index_of c (columns df)).
Proof. unfold Pandas.getitem. destruct (Pandas.index_of c (columns df)); [eauto|done]. Qed.

Lemma ordered_matchers_key_columns df base_id name race matchers :
  Gameable.ordered_matchers df base_id name race = Ok matchers →
  Spec.has_key_columns df.
Proof.
  unfold Gameable.ordered_matchers, rbind.
  destruct (Pandas.getitem df "base_id") eqn:Hb; [|done].
  destruct (Pandas.getitem df "name") eqn:Hn; [|done].
  destruct (Pandas.getitem df "race") eqn:Hr; [|done].
  intros _. repeat split; eauto using getitem_is_Some.
Qed.

Lemma matcher_selects_one df base_id name race m :
  Gameable._get_matching_df_rows_matcher df base_id name race = Ok (Some m) →
  Spec.has_key_columns df ∧ Pandas.count m = 1 ∧
  ∃ p row, m = Spec.selector df p ∧ Pandas.select m (rows df) = [row].
Proof.
  unfold Gameable._get_matching_df_rows_matcher, rbind.
  destruct (Gameable.ordered_matchers df base_id name race) as [matchers|] eqn:Hom;
    [|done].
  intros Hfirst.
  pose proof (ordered_matchers_key_columns _ _ _ _ _ Hom) as Hcols.
  destruct (ordered_matchers_tiers df base_id name race Hcols)
    as (matchers' & Hom' & Hmasks & _).
  rewrite Hom in Hom'. injection Hom' as <-.
  destruct (Gameable.first_single matchers) as [[label m']|] eqn:Hfs; [|done].
  simpl in Hfirst. injection Hfirst as ->.
  apply first_single_count in Hfs as [Hin Hcount].
  split; [done|]. split; [done|].
  assert (Hm : m ∈ matchers.*2) by (apply list_elem_of_fmap; by exists (label, m)).
  rewrite Hmasks in Hm. apply list_elem_of_fmap in Hm as (p & -> & _).
  exists p. unfold Spec.selector in *.
  pose proof (select_map_length p (rows df)) as Hlen. rewrite Hcount in Hlen.
  destruct (Pandas.select (map p (rows df)) (rows df)) as [|row [|? ?]] eqn:Hsel;
    simpl in Hlen; try lia.
  by exists row.
Qed.


(** ** Splitting never gains characters *)

Lemma length_append_char cur c :
  String.length (cur +:+ String c EmptyString) = S (String.length cur).
Proof. induction cur as [|a cur IH]; simpl; [done|]. by rewrite IH. Qed.

Lemma split_go_weight sep skip cur s :
  ∃ x rest, Py.split_go sep skip cur s = x :: rest ∧
            weight (x :: rest) ≤ String.length cur + String.length s.
Proof.
  revert skip cur. induction s as [|c s IH]; intros skip cur.
  - exists cur, []. simpl. split; [done|lia].
  - cbn [Py.split_go]. destruct skip as [|k].
    + destruct (String.prefix sep (String c s)).
      * destruct (IH (String.length sep - 1) EmptyString) as (y & rest & -> & Hw).
        exists cur, (y :: rest). split; [done|].
        change (weight (cur :: y :: rest))
          with (String.length cur + 1 + weight (y :: rest)).
        cbn [String.length] in *. lia.
      * destruct (IH 0 (cur +:+ String c EmptyString)) as (y & rest & -> & Hw).
        exists y, rest. split; [done|]. rewrite length_append_char in Hw.
        cbn [String.length]. lia.
    + destruct (IH k cur) as (y & rest & -> & Hw).
      exists y, rest. split; [done|]. cbn [String.length]. lia.
Qed.

Lemma split_weight sep s : weight (Py.split sep s) ≤ String.length s.
Proof.
  unfold Py.split.
  destruct (split_go_weight sep 0 EmptyString s) as (x & rest & -> & Hw).
  cbn [String.length] in Hw. lia.
Qed.

Lemma weight_first pieces x :
  pieces !! 0 = Some x → String.length x ≤ weight pieces.
Proof. destruct pieces as [|y [|z rest]]; intros [= ->]; simpl; lia. Qed.

Lemma weight_second pieces x :
  pieces !! 1 = Some x → String.length x < weight pieces.
Proof.
  destruct pieces as [|y [|z rest]]; intros [= ->].
  change (weight (y :: x :: rest)) with (String.length y + 1 + weight (x :: rest)).
  pose proof (weight_first (x :: rest) x eq_refl). lia.
Qed.

(** The parsed race token is strictly shorter than the descriptor: it is
    never the raw descriptor itself. *)
Lemma parse_race_shorter race tok :
  parse_race race = Ok tok → String.length tok < String.length race.
Proof.
  unfold parse_race, subscript, rbind.
  destruct (Py.split "<" race !! 1) as [after|] eqn:Hafter; [|done].
  destruct (Py.split "Race " after !! 0) as [t|] eqn:Ht; [|done].
  intros [= ->].
  apply weight_second in Hafter. apply weight_first in Ht.
  pose proof (split_weight "<" race). pose proof (split_weight "Race " after). lia.
Qed.

Lemma parse_race_not_raw race tok : parse_race race = Ok tok → tok ≠ race.
Proof. intros Hlt%parse_race_shorter ->. lia. Qed.

(** ** The resolver's two branches *)

Lemma to_record_lookup cols row c :
  Pandas.to_record cols row !! c = Pandas.cell cols row c.
Proof.
  unfold Pandas.to_record, Pandas.cell.
  revert row. induction cols as [|c' cols IH]; intros row; simpl; [done|].
  destruct row as [|v row]; simpl.
  - destruct (String.eqb c c'); simpl; [done|].
    by destruct (Pandas.index_of c cols).
  - destruct (String.eqb_spec c c') as [->|Hne]; simpl.
    + by rewrite lookup_insert_eq.
    + rewrite lookup_insert_ne by done. rewrite IH.
      by destruct (Pandas.index_of c cols).
Qed.

Lemma voice_model_unset_true v :
  voice_model_unset v = true ↔ v = PyNone ∨ v = PyNaN ∨ v = PyStr "".
Proof.
  unfold voice_model_unset. destruct v as [| |s]; simpl.
  - split; [by left|done].
  - split; [by right; left|done].
  - rewrite bool_decide_eq_true. split; [by right; right|].
    by intros [?|[?|?]].
Qed.

(** ** The token of a tagged descriptor *)

Lemma append_nil_l s : EmptyString +:+ s = s.
Proof. reflexivity. Qed.

Lemma append_cons c s t : String c s +:+ t = String c (s +:+ t).
Proof. reflexivity. Qed.

Lemma append_nil_r s : s +:+ EmptyString = s.
Proof. induction s as [|c s IH]; [done|]. rewrite append_cons. by f_equal. Qed.

Lemma append_assoc s1 s2 s3 : (s1 +:+ s2) +:+ s3 = s1 +:+ (s2 +:+ s3).
Proof.
  induction s1 as [|c s1 IH]; [done|]. rewrite !append_cons. by f_equal.
Qed.

Lemma append_snoc cur c s : (cur +:+ String c EmptyString) +:+ s = cur +:+ String c s.
Proof. by rewrite append_assoc. Qed.

Lemma has_char_append c s1 s2 :
  has_char c (s1 +:+ s2) = has_char c s1 || has_char c s2.
Proof.
  induction s1 as [|c' s1 IH]; [done|].
  rewrite append_cons. cbn [has_char]. rewrite IH. by rewrite orb_assoc.
Qed.

Lemma prefix_nil s : String.prefix EmptyString s = true.
Proof. by destruct s. Qed.

Lemma prefix_append sep s : String.prefix sep (sep +:+ s) = true.
Proof.
  induction sep as [|c sep IH]; [by destruct s|].
  rewrite append_cons. cbn [String.prefix].
  destruct (ascii_dec c c); [done|congruence].
Qed.

(** With nothing to skip, the first piece extends what was collected. *)
Lemma split_go_first sep cur s :
  ∃ r more, Py.split_go sep 0 cur s = (cur +:+ r) :: more.
Proof.
  revert cur. induction s as [|c s IH]; intros cur.
  - exists EmptyString, []. cbn [Py.split_go]. by rewrite append_nil_r.
  - cbn [Py.split_go]. destruct (String.prefix sep (String c s)).
    + exists EmptyString. eexists. by rewrite append_nil_r.
    + destruct (IH (cur +:+ String c EmptyString)) as (r & more & ->).
      exists (String c r), more. by rewrite append_snoc.
Qed.

(** Characters other than '<' are collected. *)
Lemma split_lt_collect a cur s :
  has_char "<" a = false →
  Py.split_go "<" 0 cur (a +:+ s) = Py.split_go "<" 0 (cur +:+ a) s.
Proof.
  revert cur. induction a as [|c a IH]; intros cur.
  - intros _. by rewrite append_nil_l, append_nil_r.
  - cbn [has_char]. intros [Hc Ha]%orb_false_elim.
    rewrite append_cons. cbn [Py.split_go String.prefix].
    destruct (ascii_dec "<" c) as [<-|Hne]; [done|].
    rewrite IH by done. by rewrite append_snoc.
Qed.

(** A separator that does not start inside [a] ends the first piece right
    after [a]. *)
Lemma split_go_until sep a b cur :
  sep ≠ EmptyString → no_sep_start sep a (sep +:+ b) = true →
  ∃ more, Py.split_go sep 0 cur (a +:+ sep +:+ b) = (cur +:+ a) :: more.
Proof.
  intros Hsep. revert cur. induction a as [|c a IH]; intros cur.
  - intros _. rewrite append_nil_l, append_nil_r.
    pose proof (prefix_append sep b) as Hprefix.
    destruct sep as [|c0 sep]; [done|].
    rewrite append_cons in *. cbn [Py.split_go]. rewrite Hprefix. by eexists.
  - cbn [no_sep_start]. intros [Hhere Hrest]%andb_true_iff.
    apply negb_true_iff in Hhere.
    rewrite append_cons in *. cbn [Py.split_go]. rewrite Hhere.
    destruct (IH (cur +:+ String c EmptyString) Hrest) as (more & ->).
    exists more. by rewrite append_snoc.
Qed.

(** A token without a space has no "Race " starting inside it. *)
Lemma no_race_inside tok tail :
  has_char " " tok = false →
  no_sep_start "Race " tok ("Race " +:+ tail) = true.
Proof.
  induction tok as [|c tok IH]; [done|].
  cbn [has_char no_sep_start]. intros [Hc Htok]%orb_false_elim.
  rewrite (IH Htok), andb_true_r. apply negb_true_iff.
  destruct tok as [|c1 [|c2 [|c3 [|c4 tok]]]];
    rewrite ?append_cons, ?append_nil_l; cbn [String.prefix];
    repeat (match goal with
            | |- context [ascii_dec ?a ?b] => destruct (ascii_dec a b); try done
            end); subst; simpl in *; try done.
Qed.

(** On a tagged descriptor the parsed token is the tagged one. *)
Lemma parse_race_tagged race pre tok rest :
  tagged race pre tok rest → parse_race race = Ok tok.
Proof.
  intros (-> & Hpre & Htok & Hspace).
  unfold parse_race, Py.split.
  rewrite (split_lt_collect pre) by done. rewrite append_nil_l.
  rewrite append_cons, append_nil_l. cbn [Py.split_go String.prefix].
  destruct (ascii_dec "<" "<"); [|done]. rewrite prefix_nil.
  cbn [String.length Nat.sub].
  rewrite <- (append_assoc tok "Race " rest).
  rewrite (split_lt_collect (tok +:+ "Race ")).
  2:{ rewrite has_char_append, Htok. reflexivity. }
  destruct (split_go_first "<" (EmptyString +:+ (tok +:+ "Race ")) rest)
    as (r & more & ->).
  unfold subscript at 1. cbn [lookup list_lookup rbind].
  rewrite append_nil_l, !append_assoc.
  destruct (split_go_until "Race " tok r EmptyString) as (more' & ->);
    [done|by apply no_race_inside|].
  reflexivity.
Qed.

(** A descriptor without '<' has no second piece: the parse raises. *)
Lemma parse_race_untagged race :
  has_char "<" race = false → parse_race race = Raise IndexError.
Proof.
  intros Hno. unfold parse_race, Py.split.
  rewrite <- (append_nil_r race). rewrite (split_lt_collect race) by done.
  reflexivity.
Qed.

Section ResolverTheorems.

Variable load_unnamed_npc : string → string → Z → string → gmap string pyval.
Variable find_best_voice_model : string → Z → string → string.

Local Abbreviation resolve :=
  (find_character_info load_unnamed_npc find_best_voice_model).
Local Abbreviation expected := (outcome load_unnamed_npc find_best_voice_model).

(** One run of the resolver changes nothing in the world but the list of
    collaborator calls. *)
Lemma find_character_info_run base_id name race gender voice w :
  resolve base_id name race gender voice w
  = ((expected (character_df w) base_id name race gender voice).1,
     add_calls w (expected (character_df w) base_id name race gender voice).2).
Proof.
  unfold find_character_info, outcome, bind, lift, get_character_df, ret,
    record_call.
  destruct (parse_race race) as [tok|e]; [|by rewrite add_calls_nil].
  destruct (Gameable._get_matching_df_rows_matcher _ base_id name tok)
    as [[m|]|e]; [| done | by rewrite add_calls_nil].
  destruct (subscript _ 0) as [row|e]; [|by rewrite add_calls_nil].
  destruct (dict_get _ "voice_model") as [v|e]; [|by rewrite add_calls_nil].
  destruct (voice_model_unset v); [done|by rewrite add_calls_nil].
Qed.


(** C3: when the matcher, run on the parsed race token, returns [None], the
    resolver does not fail: it calls [load_unnamed_npc] once, with the name,
    the parsed token (never the raw descriptor), the sex and the in-game
    voice model, and returns that record with [is_generic = true].  On a
    descriptor of the game's form the token is the text between the first
    '<' and the 'Race ' that follows it. *)
Theorem unmatched_loads_generic_npc base_id name race gender voice w tok :
  parse_race race = Ok tok →
  Gameable._get_matching_df_rows_matcher (character_df w) base_id name tok = Ok None →
  find_character_info load_unnamed_npc find_best_voice_model
    base_id name race gender voice w
  = (Ok (load_unnamed_npc name tok gender voice, true),
     add_calls w [LoadUnnamedNpc name tok gender voice])
  ∧ tok ≠ race
  ∧ (∀ pre t rest, tagged race pre t rest → tok = t).
Proof.
  intros Hparse Hnone. split; [|split; [by eapply parse_race_not_raw|]].
  - rewrite find_character_info_run. unfold outcome. by rewrite Hparse, Hnone.
  - intros pre t rest Htag. rewrite (parse_race_tagged _ _ _ _ Htag) in Hparse.
    congruence.
Qed.

(** C7: when the matcher selects a row, exactly one row is selected and
    the returned record is the field mapping of that row, with
    [is_generic = false].  If the stored [voice_model] is [None], NaN or
    the empty string, the record's [voice_model] is what
    [find_best_voice_model] returns and that collaborator is called once;
    otherwise the record is returned as stored and no collaborator is
    called. *)
Theorem matched_row_voice_model base_id name race gender voice w tok m :
  parse_race race = Ok tok →
  Gameable._get_matching_df_rows_matcher (character_df w) base_id name tok
    = Ok (Some m) →
  ∃ row, Pandas.select m (rows (character_df w)) = [row] ∧
    let info := Pandas.to_record (columns (character_df w)) row in
    (∀ c, info !! c = Pandas.cell (columns (character_df w)) row c) ∧
    ∀ v, info !! "voice_model" = Some v →
      ((v = PyNone ∨ v = PyNaN ∨ v = PyStr "") →
         find_character_info load_unnamed_npc find_best_voice_model
    base_id name race gender voice w
         = (Ok (<["voice_model" := PyStr (find_best_voice_model race gender voice)]> info,
                false),
            add_calls w [FindBestVoiceModel race gender voice])) ∧
      ((∃ s, v = PyStr s ∧ s ≠ "") →
         find_character_info load_unnamed_npc find_best_voice_model
    base_id name race gender voice w = (Ok (info, false), w)).
Proof.
  intros Hparse Hm.
  destruct (matcher_selects_one _ _ _ _ _ Hm) as (_ & _ & p & row & _ & Hsel).
  exists row. split; [done|]. split; [intros c; apply to_record_lookup|].
  intros v Hv.
  rewrite find_character_info_run. unfold outcome.
  rewrite Hparse, Hm, Hsel. unfold subscript.
  change ([row] !! 0) with (Some row). cbv beta iota zeta.
  unfold dict_get. rewrite Hv. split.
  - intros Hunset%voice_model_unset_true. by rewrite Hunset.
  - intros (s & -> & Hs).
    assert (voice_model_unset (PyStr s) = false) as ->.
    { apply not_true_is_false. rewrite voice_model_unset_true.
      intros [?|[?|?]]; congruence. }
    simpl. by rewrite add_calls_nil.
Qed.

(** C8: resolution only reads the table.  After one run, and after a second
    run of the same query, the table (and the rest of the world but the
    call log) is as before; the second run gives the same answer and makes
    the same collaborator calls again: a backfilled voice model is written
    to the returned record only, so the second run finds the stored field
    unset again and asks the collaborator again. *)
Theorem resolution_is_read_only base_id name race gender voice w :
  let run1 := find_character_info load_unnamed_npc find_best_voice_model
    base_id name race gender voice w in
  let run2 := find_character_info load_unnamed_npc find_best_voice_model
    base_id name race gender voice run1.2 in
  character_df run1.2 = character_df w ∧
  folders run1.2 = folders w ∧
  warnings run1.2 = warnings w ∧
  character_df run2.2 = character_df w ∧
  run2.1 = run1.1 ∧
  ∃ cs, calls run1.2 = calls w ++ cs ∧ calls run2.2 = calls w ++ cs ++ cs.
Proof.
  cbv zeta. rewrite !find_character_info_run. simpl.
  repeat split; try done.
  eexists. split; [done|]. by rewrite app_assoc.
Qed.

(** C10: the parsed race token (on a descriptor of the game's form, the
    text between the first '<' and the 'Race ' that follows) differs from
    the raw descriptor, and it goes to the matcher and to
    [load_unnamed_npc] only.  Whenever the
    resolver calls [find_best_voice_model] (the matched row has its voice
    model unset), it passes the raw descriptor as received, and the value
    it puts in the record is the collaborator's answer for the raw
    descriptor. *)
Theorem backfill_passes_raw_race base_id name race gender voice w tok :
  parse_race race = Ok tok →
  tok ≠ race ∧
  (∀ pre t rest, tagged race pre t rest → tok = t) ∧
  ∃ cs, (find_character_info load_unnamed_npc find_best_voice_model
       base_id name race gender voice w).2 = add_calls w cs ∧
    match Gameable._get_matching_df_rows_matcher (character_df w) base_id name tok with
    | Ok None => cs = [LoadUnnamedNpc name tok gender voice]
    | Ok (Some m) =>
        cs = [] ∨
        (cs = [FindBestVoiceModel race gender voice] ∧
         ∃ info, (find_character_info load_unnamed_npc find_best_voice_model
       base_id name race gender voice w).1
                 = Ok (<["voice_model" :=
                          PyStr (find_best_voice_model race gender voice)]> info, false))
    | Raise _ => cs = []
    end.
Proof.
  intros Hparse. split; [by eapply parse_race_not_raw|]. split.
  { intros pre t rest Htag. rewrite (parse_race_tagged _ _ _ _ Htag) in Hparse.
    congruence. }
  rewrite find_character_info_run. unfold outcome. rewrite Hparse.
  destruct (Gameable._get_matching_df_rows_matcher _ base_id name tok)
    as [[m|]|e]; simpl.
  - destruct (subscript _ 0) as [row|e]; [|eexists; split; [done|by left]].
    destruct (dict_get _ "voice_model") as [v|e]; [|eexists; split; [done|by left]].
    destruct (voice_model_unset v).
    + eexists. split; [done|]. right. split; [done|]. by eexists.
    + eexists. split; [done|]. by left.
  - by eexists.
  - by eexists.
Qed.

(** The resolver raises on a descriptor without '<', whatever the table
    holds: the parse comes before the matcher. *)
Lemma untagged_descriptor_raises base_id name race gender voice w :
  has_char "<" race = false →
  find_character_info load_unnamed_npc find_best_voice_model
    base_id name race gender voice w = (Raise IndexError, w).
Proof.
  intros Hno. rewrite find_character_info_run. unfold outcome.
  rewrite (parse_race_untagged race Hno). simpl. by rewrite add_calls_nil.
Qed.

End ResolverTheorems.

Lemma unmatched_loads_generic_npc_witness :
  find_character_info Examples.generic_npc Examples.best_voice
    "00000001" "Stranger" Examples.nord_descriptor 1 "MaleNord" Worlds.lydia_world
  = (Ok (Examples.generic_npc "Stranger" "Nord" 1 "MaleNord", true),
     add_calls Worlds.lydia_world [LoadUnnamedNpc "Stranger" "Nord" 1 "MaleNord"])
  ∧ "Nord" ≠ Examples.nord_descriptor.
Proof.
  destruct (unmatched_loads_generic_npc Examples.generic_npc Examples.best_voice
              "00000001" "Stranger" Examples.nord_descriptor 1 "MaleNord"
              Worlds.lydia_world "Nord" eq_refl eq_refl) as (Hrun & Hne & _).
  split; [exact Hrun|exact Hne].
Defined.

Lemma matched_row_voice_model_witness :
  ∃ row, Pandas.select [true; false; false] (rows Examples.lydia_table) = [row] ∧
    find_character_info Examples.generic_npc Examples.best_voice
      "A2F3C" "Lydia" Examples.nord_descriptor 0 "FemaleNord" Worlds.lydia_world
    = (Ok (<["voice_model" := PyStr "FemaleNord"]>
             (Pandas.to_record Examples.hdr row), false),
       add_calls Worlds.lydia_world
         [FindBestVoiceModel Examples.nord_descriptor 0 "FemaleNord"]).
Proof.
  destruct (matched_row_voice_model Examples.generic_npc Examples.best_voice
              "A2F3C" "Lydia" Examples.nord_descriptor 0 "FemaleNord"
              Worlds.lydia_world "Nord" [true; false; false] eq_refl eq_refl)
    as (row & Hsel & _ & Hv).
  exists row. split; [exact Hsel|].
  injection Hsel as <-.
  destruct (Hv (PyStr "") eq_refl) as [Hunset _].
  apply Hunset. right; right; reflexivity.
Defined.

Lemma backfill_passes_raw_race_witness :
  "Nord" ≠ Examples.nord_descriptor ∧
  (find_character_info Examples.generic_npc Examples.best_voice
     "A2F3C" "Lydia" Examples.nord_descriptor 0 "FemaleNord" Worlds.lydia_world).2
  = add_calls Worlds.lydia_world
      [FindBestVoiceModel Examples.nord_descriptor 0 "FemaleNord"].
Proof.
  destruct (backfill_passes_raw_race Examples.generic_npc Examples.best_voice
              "A2F3C" "Lydia" Examples.nord_descriptor 0 "FemaleNord"
              Worlds.lydia_world "Nord" eq_refl) as (Hne & _ & cs & Hrun & Hcs).
  split; [exact Hne|]. reflexivity.
Defined.

(** ** The ingestor: one candidate *)

Lemma index_of_lookup c cols j :
  Pandas.index_of c cols = Some j → cols !! j = Some c.
Proof.
  revert j. induction cols as [|c' cols IH]; intros j; simpl; [done|].
  destruct (String.eqb_spec c c') as [->|Hne].
  - by intros [= <-].
  - destruct (Pandas.index_of c cols) as [j'|]; simpl; [|done].
    intros [= <-]. by apply IH.
Qed.

Lemma index_of_NoDup cols k c :
  NoDup cols → cols !! k = Some c → Pandas.index_of c cols = Some k.
Proof.
  intros Hnd. revert k. induction Hnd as [|c' cols Hnotin Hnd IH]; intros k; [done|].
  destruct k as [|k]; simpl.
  - intros [= ->]. by rewrite String.eqb_refl.
  - intros Hk. destruct (String.eqb_spec c c') as [->|Hne].
    + exfalso. apply Hnotin. by eapply list_elem_of_lookup_2.
    + by rewrite (IH k Hk).
Qed.

Lemma overwrites_supplied c entry :
  Ingestor.overwrites c (Ingestor.get c entry PyNone) = supplied (Ingestor.lookup c entry).
Proof.
  unfold Ingestor.get, Ingestor.overwrites, Ingestor.not_empty.
  destruct c as [content|cols row]; simpl.
  - destruct (content !! entry) as [[s|]|]; simpl; try done.
    destruct (String.eqb_spec s "") as [->|Hne]; simpl; [done|].
    rewrite bool_decide_eq_false_2; [done|congruence].
  - destruct (Pandas.cell cols row entry) as [[| |s]|]; simpl; try done.
    destruct (String.eqb_spec s "") as [->|Hne]; simpl; [done|].
    rewrite bool_decide_eq_false_2; [done|congruence].
Qed.

Lemma supplied_get c entry dflt :
  supplied (Ingestor.lookup c entry) = true →
  Some (Ingestor.get c entry dflt) = Ingestor.lookup c entry.
Proof.
  unfold Ingestor.get. by destruct (Ingestor.lookup c entry).
Qed.

Lemma upd_row_length c headers cols row :
  length (upd_row c headers cols row) = length row.
Proof.
  revert row. induction headers as [|h headers IH]; intros row; simpl; [done|].
  rewrite IH. destruct (Ingestor.overwrites _ _); [|done].
  destruct (Pandas.index_of h cols); [|done]. by rewrite length_insert.
Qed.

(** The cell of a selected row after the update loop over [headers]. *)
Lemma upd_row_lookup c headers cols row k col :
  NoDup cols → NoDup headers → k < length row → cols !! k = Some col →
  upd_row c headers cols row !! k
  = if decide (col ∈ headers)
    then (if supplied (Ingestor.lookup c col) then Ingestor.lookup c col else row !! k)
    else row !! k.
Proof.
  intros Hcols Hnd Hk Hcol. revert row Hk.
  induction Hnd as [|h headers Hnotin Hnd IH]; intros row Hk; simpl; [done|].
  rewrite overwrites_supplied.
  destruct (decide (col = h)) as [->|Hne].
  - rewrite decide_True by left.
    rewrite (index_of_NoDup _ _ _ Hcols Hcol).
    destruct (supplied (Ingestor.lookup c h)) eqn:Hsup.
    + rewrite IH by (by rewrite length_insert).
      rewrite decide_False by done. rewrite list_lookup_insert_eq by done.
      by apply supplied_get.
    + rewrite IH by done. by rewrite decide_False.
  - assert (Hrow : (if supplied (Ingestor.lookup c h)
                    then match Pandas.index_of h cols with
                         | Some j => <[j := Ingestor.get c h PyNone]> row
                         | None => row
                         end
                    else row) !! k = row !! k).
    { destruct (supplied (Ingestor.lookup c h)); [|done].
      destruct (Pandas.index_of h cols) as [j|] eqn:Hj; [|done].
      apply list_lookup_insert_ne. intros ->.
      apply index_of_lookup in Hj. congruence. }
    rewrite IH.
    + rewrite Hrow. destruct (decide (col ∈ headers)) as [Hin|Hnin].
      * rewrite decide_True by (by right). done.
      * rewrite decide_False; [done|]. by intros [?|?]%elem_of_cons.
    + destruct (supplied (Ingestor.lookup c h)); [|done].
      destruct (Pandas.index_of h cols); [|done]. by rewrite length_insert.
Qed.


(** ** The update loop on the table *)

Lemma zip_with_same_twice {A} (f g : bool → A → A) (m : mask) (l : list A) :
  zip_with f m (zip_with g m l) = zip_with (λ b x, f b (g b x)) m l.
Proof.
  revert l. induction m as [|b m IH]; intros [|x l]; simpl; [done..|].
  by rewrite IH.
Qed.

Lemma zip_with_ext_mask {A} (f g : bool → A → A) (m : mask) (l : list A) :
  (∀ b x, f b x = g b x) → zip_with f m l = zip_with g m l.
Proof.
  intros Hfg. revert l. induction m as [|b m IH]; intros [|x l]; simpl; [done..|].
  by rewrite Hfg, IH.
Qed.

Lemma zip_with_keep {A} (m : mask) (l : list A) :
  length m = length l → zip_with (λ _ x, x) m l = l.
Proof.
  revert l. induction m as [|b m IH]; intros [|x l]; simpl; try done.
  intros [= Hlen]. by rewrite IH.
Qed.

(** With headers that all belong to the table, the update loop rewrites
    the selected rows cell by cell and keeps the header list. *)
Lemma update_row_rows c (m : mask) headers df :
  Forall (λ h, is_Some (Pandas.index_of h (columns df))) headers →
  length m = length (rows df) →
  Ingestor.update_row c m headers df
  = mkDataFrame (columns df)
      (zip_with (λ (b : bool) row, if b then upd_row c headers (columns df) row else row)
         m (rows df)).
Proof.
  intros Hheaders. revert df Hheaders.
  induction headers as [|h headers IH]; intros df Hheaders Hlen; simpl.
  - destruct df as [cols rs]. simpl in *. f_equal.
    rewrite (zip_with_ext_mask _ (λ _ x, x)) by (by intros []).
    by rewrite zip_with_keep.
  - apply Forall_cons in Hheaders as [[j Hj] Hheaders].
    destruct (Ingestor.overwrites c (Ingestor.get c h PyNone)).
    + unfold Pandas.set_loc. rewrite Hj. rewrite IH; simpl.
      * f_equal. rewrite zip_with_same_twice.
        apply zip_with_ext_mask. by intros [] row.
      * done.
      * rewrite length_zip_with. lia.
    + by rewrite IH.
Qed.

Lemma columns_index_of cols :
  Forall (λ h, is_Some (Pandas.index_of h cols)) cols.
Proof.
  induction cols as [|c cols IH]; constructor; simpl.
  - rewrite String.eqb_refl. eauto.
  - eapply Forall_impl; [exact IH|]. simpl. intros h [j Hj].
    destruct (String.eqb h c); [eauto|]. rewrite Hj. simpl. eauto.
Qed.

(** ** Masks with exactly one selected row *)

Lemma count_cons b m :
  Pandas.count (b :: m) = if b then S (Pandas.count m) else Pandas.count m.
Proof. unfold Pandas.count. rewrite filter_cons. by destruct b. Qed.

Lemma count_zero m j : Pandas.count m = 0 → m !! j ≠ Some true.
Proof.
  revert j. induction m as [|b m IH]; intros j; [done|].
  rewrite count_cons. destruct b; [done|].
  intros Hc. destruct j as [|j]; simpl; [done|]. by apply IH.
Qed.

Lemma count_one m :
  Pandas.count m = 1 →
  ∃ i, m !! i = Some true ∧ ∀ j, j ≠ i → m !! j ≠ Some true.
Proof.
  induction m as [|b m IH]; [done|].
  rewrite count_cons. destruct b.
  - intros [= Hc]. exists 0. split; [done|].
    intros [|j] Hj; [done|]. simpl. by apply count_zero.
  - intros Hc. destruct (IH Hc) as (i & Hi & Hothers).
    exists (S i). split; [done|].
    intros [|j] Hj; simpl; [done|]. apply Hothers. lia.
Qed.

Lemma select_elem {A} (m : mask) (l : list A) i x :
  m !! i = Some true → l !! i = Some x → x ∈ Pandas.select m l.
Proof.
  revert l i. induction m as [|b m IH]; intros [|y l] [|i]; simpl; try done.
  - intros [= ->] [= ->]. left.
  - intros Hm Hl. destruct b; [right|]; by eapply IH.
Qed.

(** ** The matcher called on a candidate *)

Lemma call_matcher_Ok df base_id name race r :
  Ingestor.call_matcher df base_id name race = Ok r →
  ∃ b n rc, base_id = PyStr b ∧ name = PyStr n ∧ race = PyStr rc ∧
    Gameable._get_matching_df_rows_matcher df b n rc = Ok r.
Proof.
  unfold Ingestor.call_matcher, rbind.
  destruct base_id as [| |b]; try done.
  destruct name as [| |n], race as [| |rc];
    try (destruct (Pandas.getitem df "base_id"); [|done];
         destruct (Pandas.getitem df "name"); [|done];
         try (destruct (Pandas.getitem df "race")); done).
  intros Hm. by exists b, n, rc.
Qed.

Lemma match_candidate_Some df c m :
  match_candidate df c = Ok (Some m) →
  length m = length (rows df) ∧
  ∃ i row, rows df !! i = Some row ∧ m !! i = Some true ∧
    (∀ j, j ≠ i → m !! j ≠ Some true) ∧ Pandas.select m (rows df) = [row].
Proof.
  intros (b & n & rc & _ & _ & _ & Hm)%call_matcher_Ok.
  destruct (matcher_selects_one _ _ _ _ _ Hm) as (_ & Hcount & p & row & -> & Hsel).
  unfold Spec.selector in *. split; [by rewrite length_map|].
  destruct (count_one _ Hcount) as (i & Hi & Hothers).
  assert (is_Some (rows df !! i)) as [row' Hrow'].
  { apply lookup_lt_is_Some. apply lookup_lt_Some in Hi. by rewrite length_map in Hi. }
  pose proof (select_elem _ _ _ _ Hi Hrow') as Hin.
  rewrite Hsel in Hin. apply list_elem_of_singleton in Hin as ->.
  by exists i, row.
Qed.

(** One candidate, step by step. *)
Lemma apply_candidate_run headers c w :
  Ingestor.apply_candidate headers c w
  = match match_candidate (character_df w) c with
    | Raise e => (Raise e, w)
    | Ok None =>
        match Pandas.append_row (character_df w) (Ingestor.new_row c headers) with
        | Ok df' => (Ok tt, with_df w df')
        | Raise e => (Raise e, w)
        end
    | Ok (Some m) =>
        (Ok tt, with_df w (Ingestor.update_row c m headers (character_df w)))
    end.
Proof.
  unfold Ingestor.apply_candidate, match_candidate, cand_name, cand_base_id,
    cand_race, bind, lift, get_character_df, set_character_df, ret, with_df.
  cbv zeta.
  destruct (Ingestor.call_matcher _ _ _ _) as [[m|]|e]; [done| |done].
  by destruct (Pandas.append_row _ _).
Qed.

(** C2: one candidate record, applied to a well-formed table with the
    table's own header list.  When the matcher finds no unique row, one row
    is appended, holding for each header, in header order, the candidate's
    value if the candidate has that key and the empty string otherwise.
    When the matcher finds a unique row, the table keeps its headers and
    its other rows, and each cell of that row is overwritten with the
    candidate's value exactly when the candidate supplies a non-empty,
    non-null value for its header; every other cell of the row stays. *)
Theorem override_upsert c w :
  let df := character_df w in
  wf df →
  (match_candidate df c = Ok None →
     Ingestor.apply_candidate (columns df) c w
     = (Ok tt, with_df w (mkDataFrame (columns df)
          (rows df ++ [map (λ col, default (PyStr "") (Ingestor.lookup c col))
                         (columns df)])))) ∧
  (∀ m, match_candidate df c = Ok (Some m) →
     ∃ i row df',
       rows df !! i = Some row ∧ Pandas.select m (rows df) = [row] ∧
       Ingestor.apply_candidate (columns df) c w = (Ok tt, with_df w df') ∧
       columns df' = columns df ∧
       length (rows df') = length (rows df) ∧
       (∀ j, j ≠ i → rows df' !! j = rows df !! j) ∧
       ∃ row', rows df' !! i = Some row' ∧ length row' = length row ∧
         ∀ k col, columns df !! k = Some col →
           row' !! k = if supplied (Ingestor.lookup c col)
                       then Ingestor.lookup c col else row !! k).
Proof.
  intros df [Hnd Hrows]. split.
  - intros Hnone. rewrite apply_candidate_run. fold df. rewrite Hnone.
    unfold Pandas.append_row, Ingestor.new_row.
    rewrite decide_True by (by rewrite length_map). done.
  - intros m Hsome.
    destruct (match_candidate_Some _ _ _ Hsome)
      as (Hlen & i & row & Hi & Hmi & Hothers & Hsel).
    exists i, row, (Ingestor.update_row c m (columns df) df).
    split; [done|]. split; [done|]. split.
    { rewrite apply_candidate_run. fold df. by rewrite Hsome. }
    rewrite update_row_rows by (done || apply columns_index_of). simpl.
    split; [done|]. split; [rewrite length_zip_with; lia|]. split.
    + intros j Hj. rewrite lookup_zip_with.
      destruct (m !! j) as [[|]|] eqn:Hmj; simpl.
      * by destruct (Hothers j Hj).
      * by destruct (rows df !! j).
      * apply lookup_ge_None in Hmj. symmetry. apply lookup_ge_None. lia.
    + exists (upd_row c (columns df) (columns df) row).
      split; [by rewrite lookup_zip_with, Hmi, Hi|].
      split; [apply upd_row_length|].
      intros k col Hcol.
      assert (length row = length (columns df)) as Hrow.
      { eapply Forall_lookup_1 in Hrows; [|exact Hi]. done. }
      rewrite (upd_row_lookup c _ _ row k col); try done.
      * rewrite decide_True; [done|]. by eapply list_elem_of_lookup_2.
      * rewrite Hrow. by eapply lookup_lt_Some.
Qed.

Lemma lydia_wf : wf Examples.lydia_table.
Proof.
  split.
  - apply (bool_decide_unpack (NoDup Examples.hdr)). vm_compute. reflexivity.
  - repeat constructor.
Defined.

Lemma override_upsert_witness :
  (∃ df', Ingestor.apply_candidate Examples.hdr
            (Ingestor.JsonRecord {[ "name" := Some "Lydia";
                                    "voice_model" := Some "NewVoice" ]})
            Worlds.lydia_world
          = (Ok tt, with_df Worlds.lydia_world df') ∧
          columns df' = Examples.hdr ∧
          length (rows df') = 3) ∧
  Ingestor.apply_candidate Examples.hdr
    (Ingestor.JsonRecord {[ "name" := Some "Serana"; "voice_model" := None ]})
    Worlds.lydia_world
  = (Ok tt, with_df Worlds.lydia_world (mkDataFrame Examples.hdr
       (rows Examples.lydia_table ++ [[PyStr "Serana"; PyStr ""; PyStr ""; PyNone]]))).
Proof.
  split.
  - destruct (override_upsert
                (Ingestor.JsonRecord {[ "name" := Some "Lydia";
                                        "voice_model" := Some "NewVoice" ]})
                Worlds.lydia_world lydia_wf) as [_ Hupdate].
    destruct (Hupdate [true; false; false] eq_refl)
      as (i & row & df' & _ & _ & Hrun & Hcols & Hlen & _).
    exists df'. split; [exact Hrun|]. split; [exact Hcols|exact Hlen].
  - destruct (override_upsert
                (Ingestor.JsonRecord {[ "name" := Some "Serana"; "voice_model" := None ]})
                Worlds.lydia_world lydia_wf) as [Hinsert _].
    exact (Hinsert eq_refl).
Defined.

(** ** Applying an override twice *)


Lemma twins_row_counts :
  length (rows (character_df (ingest "character_overrides" Twins.start).2)) = 3 ∧
  length (rows (character_df
    (ingest "character_overrides" (ingest "character_overrides" Twins.start).2).2)) = 4.
Proof. split; vm_compute; reflexivity. Qed.



Lemma new_row_lookup c cols k col :
  cols !! k = Some col →
  Ingestor.new_row c cols !! k = Some (Ingestor.get c col (PyStr "")).
Proof. intros Hcol. unfold Ingestor.new_row. by rewrite list_lookup_fmap, Hcol. Qed.



Lemma matcher_Ok_key_columns df base_id name race r :
  Gameable._get_matching_df_rows_matcher df base_id name race = Ok r →
  Spec.has_key_columns df.
Proof.
  unfold Gameable._get_matching_df_rows_matcher, rbind.
  destruct (Gameable.ordered_matchers df base_id name race) eqn:Hom; [|done].
  intros _. by eapply ordered_matchers_key_columns.
Qed.

Lemma field_new_row c cols key :
  is_Some (Pandas.index_of key cols) →
  default PyNaN (Pandas.cell cols (Ingestor.new_row c cols) key)
  = Ingestor.get c key (PyStr "").
Proof.
  intros [j Hj]. unfold Pandas.cell. rewrite Hj. simpl.
  by rewrite (new_row_lookup c cols j key (index_of_lookup _ _ _ Hj)).
Qed.

(** ** Faults in override files *)


Lemma for_each_guarded folder headers files w :
  for_each files (λ f,
    try_except (Ingestor.apply_file headers f)
               (λ e, log_warning (file_name f) folder e)) w
  = (Ok tt, foldl (after_file folder headers) w files).
Proof.
  revert w. induction files as [|f files IH]; intros w; [done|].
  cbn [for_each foldl]. unfold bind at 1, try_except at 1, after_file at 2.
  destruct (Ingestor.apply_file headers f w) as [[[]|e] w'].
  - apply IH.
  - unfold log_warning at 1. apply IH.
Qed.




(** ** Scenarios of the specification, run *)

(** The descriptor [<NordRace (00012345) Race >] parses to [Nord], so a row
    whose race is stored as [NordRace] is found by name and id. *)
Example scenario_lydia_by_name_and_id :
  parse_race Examples.nord_descriptor = Ok "Nord" ∧
  Gameable.matched_by Scenarios.nord_race_table "A2F3C" "Lydia" "Nord"
  = Ok (Some "name, ID").
Proof. split; reflexivity. Qed.

(** Two rows with the same name, id and race: no tier selects one row. *)
Example scenario_ambiguity_collapse :
  Gameable._get_matching_df_rows_matcher Twins.table "1" "Curie" "Synth" = Ok None.
Proof. reflexivity. Qed.

(** Partial-id descent: the id truncated to four and to three characters
    is found through the partial-id tier. *)
Example scenario_partial_id_descent :
  Gameable.matched_by Scenarios.descent_table "12AB3" "Ysolda" "Nord"
  = Ok (Some "name, ID, race") ∧
  Gameable.matched_by Scenarios.descent_table "2ab3" "Ysolda" "Nord"
  = Ok (Some "name, partial ID, race") ∧
  Spec.chosen_n Scenarios.descent_table "2ab3" = 4 ∧
  Gameable.matched_by Scenarios.descent_table "AB3" "Ysolda" "Nord"
  = Ok (Some "name, partial ID, race") ∧
  Spec.chosen_n Scenarios.descent_table "AB3" = 3.
Proof. repeat split; reflexivity. Qed.

(** Mod folder first, user folder second: the user's value stays. *)
Example scenario_user_override_wins :
  let mod_file := mkFile "lydia.json"
    (Ok (JDict {[ "name" := Some "Lydia"; "voice_model" := Some "A" ]}))
    (Raise DecodeError) in
  let user_file := mkFile "lydia.json"
    (Ok (JDict {[ "name" := Some "Lydia"; "voice_model" := Some "B" ]}))
    (Raise DecodeError) in
  let w := mkWorld Examples.lydia_table
    {[ "mod" := [mod_file]; "user" := [user_file] ]} [] [] in
  rows (character_df (apply_all_overrides "mod" "user" w).2) !! 0
  = Some [PyStr "Lydia"; PyStr "000A2F3C"; PyStr "Nord"; PyStr "B"].
Proof. vm_compute. reflexivity. Qed.

(** * Further properties of the matcher *)

Lemma matcher_Ok_find df base_id name race :
  Spec.has_key_columns df →
  Gameable._get_matching_df_rows_matcher df base_id name race
  = Ok (Spec.find_match df base_id name race).
Proof.
  intros Hcols.
  destruct (ordered_matchers_tiers df base_id name race Hcols)
    as (matchers & Hom & Hmasks & _).
  unfold Gameable._get_matching_df_rows_matcher, Spec.find_match.
  rewrite Hom. unfold rbind. f_equal. exact (first_single_find _ _ _ Hmasks).
Qed.

Lemma getitem_missing df c :
  Pandas.index_of c (columns df) = None → Pandas.getitem df c = Raise (KeyError c).
Proof. unfold Pandas.getitem. by intros ->. Qed.

Lemma getitem_present df c :
  is_Some (Pandas.index_of c (columns df)) → ∃ l, Pandas.getitem df c = Ok l.
Proof. intros H. eexists. by apply getitem_fields. Qed.

(** The matcher returns (a selector or [None]) exactly on the tables that
    have the columns [base_id], [name] and [race]; on any other table it
    raises [KeyError] for the first of the three, in that order, that is
    missing. *)
Theorem matcher_raises_on_missing_column df base_id name race :
  ((∃ res, Gameable._get_matching_df_rows_matcher df base_id name race = Ok res)
   ↔ Spec.has_key_columns df) ∧
  (Pandas.index_of "base_id" (columns df) = None →
     Gameable._get_matching_df_rows_matcher df base_id name race
     = Raise (KeyError "base_id")) ∧
  (is_Some (Pandas.index_of "base_id" (columns df)) →
   Pandas.index_of "name" (columns df) = None →
     Gameable._get_matching_df_rows_matcher df base_id name race
     = Raise (KeyError "name")) ∧
  (is_Some (Pandas.index_of "base_id" (columns df)) →
   is_Some (Pandas.index_of "name" (columns df)) →
   Pandas.index_of "race" (columns df) = None →
     Gameable._get_matching_df_rows_matcher df base_id name race
     = Raise (KeyError "race")).
Proof.
  split; [|split; [|split]].
  - split.
    + intros [res Hres]. by eapply matcher_Ok_key_columns.
    + intros Hcols. eexists. by apply matcher_Ok_find.
  - intros Hb. unfold Gameable._get_matching_df_rows_matcher,
      Gameable.ordered_matchers. by rewrite (getitem_missing _ _ Hb).
  - intros [ids Hb]%getitem_present Hn.
    unfold Gameable._get_matching_df_rows_matcher, Gameable.ordered_matchers.
    rewrite Hb. unfold rbind at 2. by rewrite (getitem_missing _ _ Hn).
  - intros [ids Hb]%getitem_present [names Hn]%getitem_present Hr.
    unfold Gameable._get_matching_df_rows_matcher, Gameable.ordered_matchers.
    rewrite Hb. unfold rbind at 2. rewrite Hn. unfold rbind at 2.
    by rewrite (getitem_missing _ _ Hr).
Qed.

(** A selector the matcher returns is as long as the table and selects
    exactly one of its rows. *)
Theorem matcher_selector_one_row df base_id name race m :
  Gameable._get_matching_df_rows_matcher df base_id name race = Ok (Some m) →
  length m = length (rows df) ∧
  ∃ i row, rows df !! i = Some row ∧ m !! i = Some true ∧
    (∀ j, j ≠ i → m !! j ≠ Some true) ∧ Pandas.select m (rows df) = [row].
Proof.
  intros Hm.
  destruct (matcher_selects_one _ _ _ _ _ Hm) as (_ & Hcount & p & row & -> & Hsel).
  unfold Spec.selector in *. split; [by rewrite length_map|].
  destruct (count_one _ Hcount) as (i & Hi & Hothers).
  assert (is_Some (rows df !! i)) as [row' Hrow'].
  { apply lookup_lt_is_Some. apply lookup_lt_Some in Hi. by rewrite length_map in Hi. }
  pose proof (select_elem _ _ _ _ Hi Hrow') as Hin.
  rewrite Hsel in Hin. apply list_elem_of_singleton in Hin as ->.
  by exists i, row.
Qed.

Lemma matcher_selector_one_row_witness :
  length [true; false; false] = length (rows Examples.lydia_table) ∧
  ∃ i row, rows Examples.lydia_table !! i = Some row ∧
    [true; false; false] !! i = Some true ∧
    (∀ j, j ≠ i → [true; false; false] !! j ≠ Some true) ∧
    Pandas.select [true; false; false] (rows Examples.lydia_table) = [row].
Proof.
  apply (matcher_selector_one_row Examples.lydia_table "A2F3C" "lydia" "Nord").
  reflexivity.
Defined.

(** The tiers, each with what it implies. *)
Lemma tiers_name_or_id df base_id name race p row :
  p ∈ Spec.tiers df base_id name race → p row = true →
  Spec.name_match df name row = true ∨ Spec.id_match df base_id row = true.
Proof.
  unfold Spec.tiers. intros Hp Hrow.
  repeat (apply elem_of_cons in Hp as [->|Hp]);
    try (by apply elem_of_nil in Hp);
    repeat (apply andb_true_iff in Hrow as [Hrow ?]); auto.
Qed.

Lemma find_match_tier df base_id name race m :
  Spec.find_match df base_id name race = Some m →
  ∃ p, p ∈ Spec.tiers df base_id name race ∧ m = Spec.selector df p ∧
       Spec.selects_one df p = true.
Proof.
  unfold Spec.find_match.
  destruct (List.find _ _) as [p|] eqn:Hfind; [|done]. intros [= <-].
  destruct (find_Some_first _ _ _ Hfind) as (k & Hk & Hp & _).
  exists p. split; [by eapply list_elem_of_lookup_2|done].
Qed.

(** The row the matcher selects agrees with the query on the name or on the
    full id: no tier accepts a row on race or partial id alone. *)
Theorem matcher_row_matches_name_or_id df base_id name race m i row :
  Gameable._get_matching_df_rows_matcher df base_id name race = Ok (Some m) →
  m !! i = Some true → rows df !! i = Some row →
  Spec.name_match df name row = true ∨ Spec.id_match df base_id row = true.
Proof.
  intros Hm Hmi Hi.
  pose proof (matcher_Ok_key_columns _ _ _ _ _ Hm) as Hcols.
  rewrite (matcher_Ok_find _ _ _ _ Hcols) in Hm. injection Hm as Hm.
  destruct (find_match_tier _ _ _ _ _ Hm) as (p & Hp & -> & _).
  unfold Spec.selector in Hmi. rewrite list_lookup_fmap, Hi in Hmi.
  injection Hmi as Hrow. by eapply tiers_name_or_id.
Qed.

Lemma matcher_row_matches_name_or_id_witness :
  Spec.name_match Examples.lydia_table "guard"
    [PyStr "Guard"; PyStr "0001A697"; PyStr "Imperial"; PyNaN] = true ∨
  Spec.id_match Examples.lydia_table "FF01A697"
    [PyStr "Guard"; PyStr "0001A697"; PyStr "Imperial"; PyNaN] = true.
Proof.
  apply (matcher_row_matches_name_or_id Examples.lydia_table "FF01A697" "guard" "Nord"
           [false; false; true] 2); reflexivity.
Defined.

Lemma selects_one_none df p :
  (∀ row, row ∈ rows df → p row = false) → Spec.selects_one df p = false.
Proof.
  intros Hnone. unfold Spec.selects_one. rewrite filter_none; [done|].
  intros j y Hj. apply Hnone. by eapply list_elem_of_lookup_2.
Qed.

(** When no row has the queried name and no row has the queried full id,
    the matcher returns [None]; in particular on a table without rows. *)
Theorem matcher_none_without_name_or_id df base_id name race :
  Spec.has_key_columns df →
  (∀ row, row ∈ rows df → Spec.name_match df name row = false) →
  (∀ row, row ∈ rows df → Spec.id_match df base_id row = false) →
  Gameable._get_matching_df_rows_matcher df base_id name race = Ok None.
Proof.
  intros Hcols Hname Hid. rewrite (matcher_Ok_find _ _ _ _ Hcols). f_equal.
  destruct (Spec.find_match df base_id name race) as [m|] eqn:Hm; [|done].
  destruct (find_match_tier _ _ _ _ _ Hm) as (p & Hp & _ & Hone).
  rewrite selects_one_none in Hone; [done|].
  intros row Hrow. destruct (p row) eqn:Hprow; [|done].
  destruct (tiers_name_or_id _ _ _ _ _ _ Hp Hprow) as [H|H].
  - by rewrite Hname in H.
  - by rewrite Hid in H.
Qed.

Lemma matcher_none_without_name_or_id_witness :
  Gameable._get_matching_df_rows_matcher Examples.lydia_table
    "00013BA1" "Stranger" "Nord" = Ok None.
Proof.
  apply matcher_none_without_name_or_id.
  - exact lydia_has_key_columns.
  - intros row Hrow.
    repeat (apply elem_of_cons in Hrow as [->|Hrow]); try reflexivity.
    by apply elem_of_nil in Hrow.
  - intros row Hrow.
    repeat (apply elem_of_cons in Hrow as [->|Hrow]); try reflexivity.
    by apply elem_of_nil in Hrow.
Defined.

Lemma selects_one_only df p i row :
  rows df !! i = Some row → p row = true →
  (∀ j row', rows df !! j = Some row' → j ≠ i → p row' = false) →
  Spec.selects_one df p = true.
Proof.
  intros Hi Hp Hothers. unfold Spec.selects_one.
  by rewrite (filter_only p (rows df) i row).
Qed.

Lemma selector_one_index df p :
  Spec.selects_one df p = true →
  ∃ i row, rows df !! i = Some row ∧ p row = true.
Proof.
  rewrite <- count_selector. intros Hc%Nat.eqb_eq.
  destruct (count_one _ Hc) as (i & Hi & _).
  unfold Spec.selector in Hi. rewrite list_lookup_fmap in Hi.
  destruct (rows df !! i) as [row|] eqn:Hrow; [|done].
  injection Hi as Hp. by exists i, row.
Qed.

(** A name that one row only carries always resolves to that row, whatever
    id and race come with the query: the tiers before "name" all require
    the name, and the tier "name" selects the row when they do not. *)
Theorem unique_name_always_found df base_id name race i row :
  Spec.has_key_columns df →
  rows df !! i = Some row →
  Spec.name_match df name row = true →
  (∀ j row', rows df !! j = Some row' → j ≠ i → Spec.name_match df name row' = false) →
  ∃ m, Gameable._get_matching_df_rows_matcher df base_id name race = Ok (Some m) ∧
       m !! i = Some true ∧ Pandas.select m (rows df) = [row].
Proof.
  intros Hcols Hi Hname Huniq.
  pose proof (selects_one_only df _ i row Hi Hname Huniq) as Hone.
  rewrite (matcher_Ok_find _ _ _ _ Hcols). unfold Spec.find_match.
  destruct (List.find _ _) as [p|] eqn:Hfind.
  2:{ exfalso. pose proof (find_None_all _ _ (Spec.name_match df name) Hfind) as Hnone.
      rewrite Hnone in Hone; [done|]. unfold Spec.tiers. set_solver. }
  destruct (find_Some_first _ _ _ Hfind) as (k & Hk & Hp & Hbefore).
  assert (Himp : ∀ r, p r = true → Spec.name_match df name r = true).
  { destruct k as [|[|[|[|[|[|k]]]]]]; simpl in Hk; try (injection Hk as <-);
      try (intros r Hr; repeat (apply andb_true_iff in Hr as [Hr ?]); done).
    exfalso. rewrite (Hbefore 5 (Spec.name_match df name)) in Hone; [done|lia|done]. }
  destruct (selector_one_index df p Hp) as (i' & row' & Hi' & Hprow').
  assert (i' = i) as ->.
  { destruct (decide (i' = i)) as [|Hne]; [done|].
    pose proof (Himp row' Hprow') as Hn'.
    by rewrite (Huniq i' row' Hi' Hne) in Hn'. }
  assert (row' = row) as -> by congruence.
  eexists. split; [done|]. unfold Spec.selector. split.
  - by rewrite list_lookup_fmap, Hi; simpl; rewrite Hprow'.
  - rewrite select_map_filter.
    apply (filter_only p (rows df) i row Hi Hprow').
    intros j r Hj Hne. destruct (p r) eqn:Hpr; [|done].
    pose proof (Himp r Hpr) as Hn'. by rewrite (Huniq j r Hj Hne) in Hn'.
Qed.

Lemma unique_name_always_found_witness :
  ∃ m, Gameable._get_matching_df_rows_matcher Examples.lydia_table "FFFFFF" "LYDIA"
         "Khajiit" = Ok (Some m) ∧
       m !! 0 = Some true ∧
       Pandas.select m (rows Examples.lydia_table)
       = [[PyStr "Lydia"; PyStr "000A2F3C"; PyStr "Nord"; PyStr ""]].
Proof.
  apply unique_name_always_found.
  - exact lydia_has_key_columns.
  - reflexivity.
  - reflexivity.
  - intros j row' Hj Hne.
    destruct j as [|[|[|j]]]; [done| | |]; simpl in Hj; simplify_eq; reflexivity.
Defined.

(** ** Case and leading zeros of the query *)

Lemma lower_char_idem c : Py.lower_char (Py.lower_char c) = Py.lower_char c.
Proof. destruct c as [[] [] [] [] [] [] [] []]; reflexivity. Qed.

Lemma lower_char_zero c : Ascii.eqb (Py.lower_char c) "0" = Ascii.eqb c "0".
Proof. destruct c as [[] [] [] [] [] [] [] []]; reflexivity. Qed.

Lemma lower_lower s : Py.lower (Py.lower s) = Py.lower s.
Proof.
  induction s as [|c s IH]; simpl; [done|]. by rewrite lower_char_idem, IH.
Qed.

Lemma lower_length s : String.length (Py.lower s) = String.length s.
Proof. induction s as [|c s IH]; simpl; [done|]. by rewrite IH. Qed.

Lemma lower_drop_chars n s : Py.drop_chars n (Py.lower s) = Py.lower (Py.drop_chars n s).
Proof. revert s. induction n as [|n IH]; intros [|c s]; simpl; try done. Qed.

Lemma lower_suffix n s : Py.suffix n (Py.lower s) = Py.lower (Py.suffix n s).
Proof. unfold Py.suffix. by rewrite lower_length, lower_drop_chars. Qed.

Lemma lower_lstrip0 s : Py.lstrip0 (Py.lower s) = Py.lower (Py.lstrip0 s).
Proof.
  induction s as [|c s IH]; simpl; [done|].
  rewrite lower_char_zero. by destruct (Ascii.eqb c "0").
Qed.

(** The key a query id is compared on depends on the id up to case only. *)
Lemma lower_id_key k b b' :
  Py.lower b = Py.lower b' →
  Py.lower (Py.lstrip0 (Py.suffix k b)) = Py.lower (Py.lstrip0 (Py.suffix k b')).
Proof. intros Heq. by rewrite <- !lower_lstrip0, <- !lower_suffix, Heq. Qed.

Lemma eq_lower_query keys s s' :
  Py.lower s = Py.lower s' → Gameable.eq_lower keys s = Gameable.eq_lower keys s'.
Proof. intros Heq. unfold Gameable.eq_lower. by rewrite Heq. Qed.

Lemma partial_id_match_query ids b b' :
  (∀ k, Py.lower (Py.lstrip0 (Py.suffix k b)) = Py.lower (Py.lstrip0 (Py.suffix k b'))) →
  Gameable.partial_id_match ids b = Gameable.partial_id_match ids b'.
Proof.
  intros Hkey. unfold Gameable.partial_id_match. simpl.
  unfold Gameable.partial_id_at.
  by rewrite !(eq_lower_query _ _ _ (Hkey _)).
Qed.

Lemma ordered_matchers_query df b n r b' n' r' :
  (∀ k, Py.lower (Py.lstrip0 (Py.suffix k b)) = Py.lower (Py.lstrip0 (Py.suffix k b'))) →
  Py.lower n = Py.lower n' → Py.lower r = Py.lower r' →
  Gameable.ordered_matchers df b n r = Gameable.ordered_matchers df b' n' r'.
Proof.
  intros Hb Hn Hr. unfold Gameable.ordered_matchers, rbind.
  destruct (Pandas.getitem df "base_id") as [ids|]; [|done].
  destruct (Pandas.getitem df "name") as [names|]; [|done].
  destruct (Pandas.getitem df "race") as [races|]; [|done].
  rewrite (partial_id_match_query ids b b' Hb).
  rewrite (eq_lower_query _ _ _ (Hb Gameable.full_id_len)).
  by rewrite (eq_lower_query _ _ _ Hn), (eq_lower_query _ _ _ Hr).
Qed.

(** The matcher ignores the case of the query: two queries that agree up
    to the case of their letters get the same answer (and the same error)
    on every table. *)
Theorem matcher_ignores_query_case df b n r b' n' r' :
  Py.lower b = Py.lower b' → Py.lower n = Py.lower n' → Py.lower r = Py.lower r' →
  Gameable._get_matching_df_rows_matcher df b n r
  = Gameable._get_matching_df_rows_matcher df b' n' r'.
Proof.
  intros Hb Hn Hr. unfold Gameable._get_matching_df_rows_matcher.
  by rewrite (ordered_matchers_query df b n r b' n' r'
                (λ k, lower_id_key k b b' Hb) Hn Hr).
Qed.

Lemma matcher_ignores_query_case_witness :
  Gameable._get_matching_df_rows_matcher Examples.lydia_table "a2f3c" "LYDIA" "nord"
  = Gameable._get_matching_df_rows_matcher Examples.lydia_table "A2F3C" "Lydia" "Nord".
Proof. apply matcher_ignores_query_case; reflexivity. Defined.

Lemma suffix_cons_zero k b :
  1 ≤ k →
  Py.lstrip0 (Py.suffix k (String "0" b)) = Py.lstrip0 (Py.suffix k b).
Proof.
  intros Hk. unfold Py.suffix. cbn [String.length].
  destruct (decide (String.length b < k)) as [Hlt|Hge].
  - replace (S (String.length b) - k) with 0 by lia.
    replace (String.length b - k) with 0 by lia. reflexivity.
  - replace (S (String.length b) - k) with (S (String.length b - k)) by lia.
    reflexivity.
Qed.

(** A zero put in front of the query id changes nothing: every key the id
    is compared on (its last 6, 5, 4 and 3 characters) is stripped of its
    leading zeros. *)
Theorem matcher_ignores_leading_zero df base_id name race :
  Gameable._get_matching_df_rows_matcher df (String "0" base_id) name race
  = Gameable._get_matching_df_rows_matcher df base_id name race.
Proof.
  unfold Gameable._get_matching_df_rows_matcher, Gameable.ordered_matchers, rbind.
  destruct (Pandas.getitem df "base_id") as [ids|]; [|done].
  destruct (Pandas.getitem df "name") as [names|]; [|done].
  destruct (Pandas.getitem df "race") as [races|]; [|done].
  unfold Gameable.partial_id_match, Gameable.full_id_len. simpl Gameable.partial_id_loop.
  unfold Gameable.partial_id_at.
  by rewrite !suffix_cons_zero by lia.
Qed.

(** ** Several rows with the queried identity *)

Lemma drop_chars_length n s :
  String.length (Py.drop_chars n s) = String.length s - n.
Proof. revert s. induction n as [|n IH]; intros [|c s]; simpl; done. Qed.

Lemma drop_chars_add n m s :
  Py.drop_chars n (Py.drop_chars m s) = Py.drop_chars (m + n) s.
Proof.
  revert s. induction m as [|m IH]; intros s; [done|].
  destruct s as [|c s]; simpl; [by destruct n|]. apply IH.
Qed.

Lemma suffix_suffix j k s : j ≤ k → Py.suffix j (Py.suffix k s) = Py.suffix j s.
Proof.
  intros Hjk. unfold Py.suffix. rewrite drop_chars_length, drop_chars_add.
  f_equal. lia.
Qed.

Lemma lstrip0_suffix_strip k s :
  1 ≤ k → Py.lstrip0 (Py.suffix k s) = Py.lstrip0 (Py.suffix k (Py.lstrip0 s)).
Proof.
  intros Hk. induction s as [|c s IH]; [done|].
  cbn [Py.lstrip0]. destruct (Ascii.eqb c "0") eqn:Hc; [|done].
  apply Ascii.eqb_eq in Hc as ->. by rewrite suffix_cons_zero.
Qed.

Lemma partial_key_string k s :
  Gameable.partial_key k (PyStr s) = Py.lstrip0 (Py.suffix k s).
Proof.
  unfold Gameable.partial_key, Gameable.remove_leading_zeros. simpl.
  destruct (k <=? String.length s) eqn:Hle; [done|].
  apply Nat.leb_gt in Hle. unfold Py.suffix.
  by replace (String.length s - k) with 0 by lia.
Qed.

Lemma same_ci_eq a b : Spec.same_ci a b = true ↔ Py.lower a = Py.lower b.
Proof. unfold Spec.same_ci. apply String.eqb_eq. Qed.

(** A row with a string id that passes the full-id comparison passes the
    partial one for every length up to six. *)
Lemma id_match_partial df base_id k row s :
  1 ≤ k → k ≤ 6 →
  Spec.field df row "base_id" = PyStr s →
  Spec.id_match df base_id row = true →
  Spec.partial_id_match df k base_id row = true.
Proof.
  intros Hk1 Hk6 Hs. unfold Spec.id_match, Spec.partial_id_match. rewrite Hs.
  unfold Gameable.remove_leading_zeros. simpl. rewrite partial_key_string.
  rewrite !same_ci_eq. intros Hid.
  rewrite (lstrip0_suffix_strip k s) by done.
  rewrite <- lower_lstrip0, <- lower_suffix, Hid, lower_suffix, lower_lstrip0.
  rewrite <- lstrip0_suffix_strip by done. by rewrite suffix_suffix.
Qed.

Lemma selects_one_two df p i j rowi rowj :
  i ≠ j → rows df !! i = Some rowi → rows df !! j = Some rowj →
  p rowi = true → p rowj = true → Spec.selects_one df p = false.
Proof.
  intros Hne Hi Hj Hpi Hpj. apply not_true_is_false.
  rewrite <- count_selector. intros Hc%Nat.eqb_eq.
  destruct (count_one _ Hc) as (i0 & _ & Hothers).
  unfold Spec.selector in Hothers.
  destruct (decide (i = i0)) as [<-|Hi0].
  - apply (Hothers j); [done|]. by rewrite list_lookup_fmap, Hj; simpl; rewrite Hpj.
  - apply (Hothers i); [done|]. by rewrite list_lookup_fmap, Hi; simpl; rewrite Hpi.
Qed.

(** Ambiguity collapse: when two rows with string ids both agree with the
    query on name, full id and race, every one of the seven tiers selects
    both of them, and the matcher returns [None]. *)
Theorem matcher_none_on_duplicates df base_id name race i j rowi rowj si sj :
  Spec.has_key_columns df →
  i ≠ j → rows df !! i = Some rowi → rows df !! j = Some rowj →
  Spec.field df rowi "base_id" = PyStr si →
  Spec.field df rowj "base_id" = PyStr sj →
  SelfQuery.tier1 df base_id name race rowi = true →
  SelfQuery.tier1 df base_id name race rowj = true →
  Gameable._get_matching_df_rows_matcher df base_id name race = Ok None.
Proof.
  intros Hcols Hne Hi Hj Hsi Hsj Hti Htj.
  unfold SelfQuery.tier1 in Hti, Htj.
  apply andb_true_iff in Hti as [[Hni Hii]%andb_true_iff Hri].
  apply andb_true_iff in Htj as [[Hnj Hij]%andb_true_iff Hrj].
  pose proof (id_match_partial df base_id 5 rowi si ltac:(lia) ltac:(lia) Hsi Hii) as Hpi.
  pose proof (id_match_partial df base_id 5 rowj sj ltac:(lia) ltac:(lia) Hsj Hij) as Hpj.
  assert (Hn : Spec.chosen_n df base_id = 5).
  { unfold Spec.chosen_n.
    assert (existsb (Spec.partial_id_match df 5 base_id) (rows df) = true) as ->; [|done].
    apply existsb_exists. exists rowi. split; [|done].
    apply list_elem_of_In. by eapply list_elem_of_lookup_2. }
  rewrite (matcher_Ok_find _ _ _ _ Hcols). f_equal.
  destruct (Spec.find_match df base_id name race) as [m|] eqn:Hm; [|done].
  destruct (find_match_tier _ _ _ _ _ Hm) as (p & Hp & _ & Hone).
  rewrite (selects_one_two df p i j rowi rowj) in Hone; try done;
    unfold Spec.tiers in Hp; rewrite Hn in Hp;
    repeat (apply elem_of_cons in Hp as [->|Hp]);
    try (by apply elem_of_nil in Hp);
    rewrite ?Hni, ?Hii, ?Hri, ?Hpi, ?Hnj, ?Hij, ?Hrj, ?Hpj; done.
Qed.

Lemma matcher_none_on_duplicates_witness :
  Gameable._get_matching_df_rows_matcher Twins.table "00000001" "curie" "SYNTH" = Ok None.
Proof.
  apply (matcher_none_on_duplicates Twins.table "00000001" "curie" "SYNTH"
           0 1 Twins.curie Twins.curie "1" "1"); try reflexivity.
  - repeat split; eexists; reflexivity.
  - lia.
Defined.

(** * Further properties of the resolver *)

Lemma has_char_split c s :
  has_char c s = true →
  ∃ a b, s = a +:+ String c b ∧ has_char c a = false.
Proof.
  induction s as [|c' s IH]; [done|]. cbn [has_char].
  destruct (Ascii.eqb c c') eqn:Hc.
  - intros _. apply Ascii.eqb_eq in Hc as <-. by exists EmptyString, s.
  - simpl. intros (a & b & -> & Ha)%IH. exists (String c' a), b.
    split; [done|]. cbn [has_char]. by rewrite Hc, Ha.
Qed.

Lemma parse_race_with_lt race :
  has_char "<" race = true → ∃ tok, parse_race race = Ok tok.
Proof.
  intros (a & b & -> & Ha)%has_char_split.
  unfold parse_race, Py.split.
  rewrite (split_lt_collect a) by done. cbn [Py.split_go String.prefix].
  destruct (ascii_dec "<" "<"); [|done]. rewrite prefix_nil.
  cbn [String.length Nat.sub].
  destruct (split_go_first "<" EmptyString b) as (r & more & ->).
  unfold subscript at 1. cbn [lookup list_lookup rbind].
  destruct (split_go_first "Race " EmptyString (EmptyString +:+ r)) as (t & more' & ->).
  by eexists.
Qed.

(** The race expression [race.split('<')[1].split('Race ')[0]] returns a
    token exactly for the descriptors that contain '<', and the token is
    strictly shorter than the descriptor; on every other descriptor it
    raises [IndexError]. *)
Theorem parse_race_needs_lt race :
  ((∃ tok, parse_race race = Ok tok) ↔ has_char "<" race = true) ∧
  (has_char "<" race = false → parse_race race = Raise IndexError) ∧
  (∀ tok, parse_race race = Ok tok → String.length tok < String.length race).
Proof.
  split; [|split].
  - split; [|apply parse_race_with_lt].
    intros [tok Htok]. destruct (has_char "<" race) eqn:Hlt; [done|].
    by rewrite (parse_race_untagged race Hlt) in Htok.
  - apply parse_race_untagged.
  - apply parse_race_shorter.
Qed.

Lemma index_of_is_Some c cols : is_Some (Pandas.index_of c cols) ↔ c ∈ cols.
Proof.
  split.
  - intros [j Hj]. apply index_of_lookup in Hj. by eapply list_elem_of_lookup_2.
  - induction cols as [|c' cols IH]; [by intros ?%elem_of_nil|].
    simpl. destruct (String.eqb_spec c c') as [->|Hne]; [eauto|].
    intros [?|Hin]%elem_of_cons; [done|].
    destruct (IH Hin) as [j ->]. simpl. eauto.
Qed.

Lemma cell_is_Some cols row c :
  length row = length cols → (is_Some (Pandas.cell cols row c) ↔ c ∈ cols).
Proof.
  intros Hlen. rewrite <- index_of_is_Some. unfold Pandas.cell. split.
  - destruct (Pandas.index_of c cols); [eauto|]. simpl. by intros [? ?].
  - intros [j Hj]. rewrite Hj. simpl. apply lookup_lt_is_Some.
    rewrite Hlen. apply index_of_lookup in Hj. by eapply lookup_lt_Some.
Qed.

Section ResolverExtras.

Variable load_unnamed_npc : string → string → Z → string → gmap string pyval.
Variable find_best_voice_model : string → Z → string → string.

(** On a well-formed table that has the columns [base_id], [name], [race]
    and [voice_model], and for a descriptor that contains '<', the resolver
    does not raise.  It makes at most one collaborator call, the record is
    flagged generic exactly when the matcher found no unique row, and a
    record that is not generic has the table's columns as its keys. *)
Theorem resolver_returns_on_well_formed base_id name race gender voice w :
  wf (character_df w) →
  Spec.has_key_columns (character_df w) →
  "voice_model" ∈ columns (character_df w) →
  has_char "<" race = true →
  ∃ tok info generic cs,
    parse_race race = Ok tok ∧
    find_character_info load_unnamed_npc find_best_voice_model
      base_id name race gender voice w = (Ok (info, generic), add_calls w cs) ∧
    length cs ≤ 1 ∧
    (generic = true ↔
       Gameable._get_matching_df_rows_matcher (character_df w) base_id name tok
       = Ok None) ∧
    (generic = false → ∀ c, is_Some (info !! c) ↔ c ∈ columns (character_df w)).
Proof.
  intros [Hnd Hrows] Hcols Hvm [tok Htok]%parse_race_with_lt.
  exists tok. rewrite find_character_info_run. unfold outcome. rewrite Htok.
  pose proof (matcher_Ok_find (character_df w) base_id name tok Hcols) as Hfind.
  destruct (Spec.find_match (character_df w) base_id name tok) as [m|] eqn:Hm.
  2:{ rewrite Hfind. do 3 eexists. split; [done|]. split; [done|].
      split; [simpl; lia|]. split; [done|]. done. }
  rewrite Hfind.
  destruct (matcher_selects_one _ _ _ _ _ Hfind) as (_ & _ & p & row & Hp & Hsel).
  rewrite Hsel. unfold subscript. change ([row] !! 0) with (Some row).
  cbv beta iota zeta.
  assert (Hrow : length row = length (columns (character_df w))).
  { assert (row ∈ rows (character_df w)) as Hin.
    { assert (row ∈ Pandas.select m (rows (character_df w))) as Hin
        by (rewrite Hsel; apply list_elem_of_singleton; done).
      rewrite Hp in Hin. unfold Spec.selector in Hin.
      rewrite select_map_filter in Hin. by apply list_elem_of_filter in Hin as [_ ?]. }
    by apply (proj1 (Forall_forall _ _) Hrows). }
  assert (Hkeys : ∀ c, is_Some (Pandas.to_record (columns (character_df w)) row !! c)
                       ↔ c ∈ columns (character_df w)).
  { intros c. rewrite to_record_lookup. by apply cell_is_Some. }
  destruct (proj2 (Hkeys "voice_model") Hvm) as [v Hv].
  unfold dict_get. rewrite Hv.
  destruct (voice_model_unset v).
  - do 3 eexists. split; [done|]. split; [done|]. split; [simpl; lia|].
    split; [done|]. intros _ c.
    destruct (decide (c = "voice_model")) as [->|Hne].
    + rewrite lookup_insert_eq. split; [done|eauto].
    + by rewrite lookup_insert_ne.
  - do 3 eexists. split; [done|]. split; [done|].
    split; [simpl; lia|]. split; [done|]. by intros _ c.
Qed.

(** A matched row of a table without a [voice_model] column makes the
    resolver raise [KeyError]; no collaborator is called. *)
Theorem resolver_raises_without_voice_model base_id name race gender voice w tok m :
  parse_race race = Ok tok →
  Gameable._get_matching_df_rows_matcher (character_df w) base_id name tok
    = Ok (Some m) →
  "voice_model" ∉ columns (character_df w) →
  find_character_info load_unnamed_npc find_best_voice_model
    base_id name race gender voice w = (Raise (KeyError "voice_model"), w).
Proof.
  intros Hparse Hm Hvm.
  destruct (matcher_selects_one _ _ _ _ _ Hm) as (_ & _ & p & row & _ & Hsel).
  rewrite find_character_info_run. unfold outcome. rewrite Hparse, Hm, Hsel.
  unfold subscript. change ([row] !! 0) with (Some row). cbv beta iota zeta.
  unfold dict_get. rewrite to_record_lookup. unfold Pandas.cell.
  destruct (Pandas.index_of "voice_model" (columns (character_df w))) as [j|] eqn:Hj.
  - exfalso. apply Hvm. apply index_of_is_Some. eauto.
  - simpl. by rewrite add_calls_nil.
Qed.

End ResolverExtras.

Lemma untagged_descriptor_raises_witness :
  find_character_info Examples.generic_npc Examples.best_voice
    "A2F3C" "Lydia" "NordRace" 0 "FemaleNord" Worlds.lydia_world
  = (Raise IndexError, Worlds.lydia_world).
Proof. apply untagged_descriptor_raises. reflexivity. Defined.

Lemma resolver_returns_on_well_formed_witness :
  ∃ tok info generic cs,
    parse_race Examples.nord_descriptor = Ok tok ∧
    find_character_info Examples.generic_npc Examples.best_voice
      "A2F3C" "Lydia" Examples.nord_descriptor 0 "FemaleNord" Worlds.lydia_world
    = (Ok (info, generic), add_calls Worlds.lydia_world cs) ∧
    length cs ≤ 1 ∧
    (generic = true ↔
       Gameable._get_matching_df_rows_matcher Examples.lydia_table "A2F3C" "Lydia" tok
       = Ok None) ∧
    (generic = false → ∀ c, is_Some (info !! c) ↔ c ∈ Examples.hdr).
Proof.
  apply (resolver_returns_on_well_formed Examples.generic_npc Examples.best_voice).
  - exact lydia_wf.
  - exact lydia_has_key_columns.
  - apply (bool_decide_unpack ("voice_model" ∈ Examples.hdr)). vm_compute. reflexivity.
  - reflexivity.
Defined.

Lemma resolver_raises_without_voice_model_witness :
  find_character_info Examples.generic_npc Examples.best_voice
    "A2F3C" "Lydia" Examples.nord_descriptor 0 "FemaleNord"
    (mkWorld (mkDataFrame ["name"; "base_id"; "race"]
                [[PyStr "Lydia"; PyStr "000A2F3C"; PyStr "Nord"]]) ∅ [] [])
  = (Raise (KeyError "voice_model"),
     mkWorld (mkDataFrame ["name"; "base_id"; "race"]
                [[PyStr "Lydia"; PyStr "000A2F3C"; PyStr "Nord"]]) ∅ [] []).
Proof.
  apply (resolver_raises_without_voice_model Examples.generic_npc Examples.best_voice
           _ _ _ _ _ _ "Nord" [true]).
  - reflexivity.
  - reflexivity.
  - apply (bool_decide_unpack ("voice_model" ∉ ["name"; "base_id"; "race"])).
    vm_compute. reflexivity.
Defined.

(** * Further properties of the ingestor *)

Lemma match_candidate_not_str df c :
  is_str (cand_base_id c) && is_str (cand_name c) && is_str (cand_race c) = false →
  ∃ e, match_candidate df c = Raise e.
Proof.
  unfold match_candidate, Ingestor.call_matcher, rbind.
  destruct (cand_base_id c) as [| |b]; [by eexists..|].
  destruct (cand_name c) as [| |n], (cand_race c) as [| |r]; simpl; try done; intros _;
    destruct (Pandas.getitem df "base_id"); try (by eexists);
    destruct (Pandas.getitem df "name"); try (by eexists);
    destruct (Pandas.getitem df "race"); by eexists.
Qed.

(** A candidate whose [name], [base_id] or [race] is present but not a
    string (a JSON null, an empty CSV cell) makes the matcher raise, and
    the record is rejected before the table is touched; a value that is not
    a string under [base_id] raises [TypeError]. *)
Theorem candidate_identity_must_be_strings headers c w :
  is_str (cand_base_id c) && is_str (cand_name c) && is_str (cand_race c) = false →
  (∃ e, Ingestor.apply_candidate headers c w = (Raise e, w)) ∧
  (is_str (cand_base_id c) = false →
     Ingestor.apply_candidate headers c w = (Raise TypeError, w)).
Proof.
  intros Hstr. split.
  - destruct (match_candidate_not_str (character_df w) c Hstr) as [e He].
    exists e. by rewrite apply_candidate_run, He.
  - intros Hb. rewrite apply_candidate_run.
    unfold match_candidate, Ingestor.call_matcher.
    by destruct (cand_base_id c).
Qed.

Lemma candidate_identity_must_be_strings_witness :
  (∃ e, Ingestor.apply_candidate Examples.hdr
          (Ingestor.CsvRecord ["name"; "race"] [PyStr "Serana"; PyNaN])
          Worlds.lydia_world = (Raise e, Worlds.lydia_world)) ∧
  Ingestor.apply_candidate Examples.hdr
    (Ingestor.JsonRecord {[ "name" := Some "Serana"; "base_id" := None ]})
    Worlds.lydia_world = (Raise TypeError, Worlds.lydia_world).
Proof.
  split.
  - apply (candidate_identity_must_be_strings Examples.hdr
             (Ingestor.CsvRecord ["name"; "race"] [PyStr "Serana"; PyNaN])).
    reflexivity.
  - apply (candidate_identity_must_be_strings Examples.hdr
             (Ingestor.JsonRecord {[ "name" := Some "Serana"; "base_id" := None ]}));
      reflexivity.
Defined.

Lemma table_kept_refl w : wf (character_df w) → table_kept w w.
Proof. intros Hwf. unfold table_kept. by split_and!. Qed.

Lemma table_kept_trans w1 w2 w3 :
  table_kept w1 w2 → table_kept w2 w3 → table_kept w1 w3.
Proof.
  intros (_ & Hc1 & Hl1 & Hk1 & Hw1) (Hwf & Hc2 & Hl2 & Hk2 & Hw2).
  unfold table_kept. split_and!; [done|congruence|lia|congruence|by etrans].
Qed.

Lemma update_row_wf c (m : mask) df :
  wf df → length m = length (rows df) →
  wf (Ingestor.update_row c m (columns df) df) ∧
  columns (Ingestor.update_row c m (columns df) df) = columns df ∧
  length (rows (Ingestor.update_row c m (columns df) df)) = length (rows df).
Proof.
  intros [Hnd Hrows] Hlen.
  rewrite update_row_rows by (done || apply columns_index_of). simpl.
  split; [|split; [done|rewrite length_zip_with; lia]].
  split; [done|]. simpl. apply Forall_lookup. intros j r.
  rewrite lookup_zip_with.
  destruct (m !! j) as [b|]; simpl; [|done].
  destruct (rows df !! j) as [r0|] eqn:Hj; simpl; [|done].
  eapply Forall_lookup_1 in Hrows; [|exact Hj]. simpl in Hrows.
  intros [= <-]. destruct b; [by rewrite upd_row_length|done].
Qed.

(** One candidate: the table keeps its shape and grows by one row at
    most; the rest of the world is not touched. *)
Lemma apply_candidate_kept c w :
  wf (character_df w) →
  let w' := (Ingestor.apply_candidate (columns (character_df w)) c w).2 in
  table_kept w w' ∧ folders w' = folders w ∧ warnings w' = warnings w ∧
  length (rows (character_df w')) ≤ S (length (rows (character_df w))) ∧
  (∀ e, (Ingestor.apply_candidate (columns (character_df w)) c w).1 = Raise e → w' = w).
Proof.
  intros Hwf. cbv zeta. rewrite apply_candidate_run.
  destruct (match_candidate (character_df w) c) as [[m|]|e] eqn:Hm.
  - destruct (match_candidate_Some _ _ _ Hm) as (Hlen & _).
    destruct (update_row_wf c m _ Hwf Hlen) as (Hwf' & Hcols & Hrows).
    simpl. unfold table_kept. simpl. split_and!; try done; lia.
  - unfold Pandas.append_row, Ingestor.new_row.
    rewrite decide_True by (by rewrite length_map). simpl.
    destruct Hwf as [Hnd Hrows].
    unfold table_kept, wf. simpl. rewrite !length_app. simpl.
    split_and!; try done; try lia.
    apply Forall_app. split; [done|]. constructor; [|done]. by rewrite length_map.
  - simpl. split; [by apply table_kept_refl|]. split_and!; try done. lia.
Qed.

(** One candidate record applied with the table's own header list: whether
    it is inserted, merged into a row or rejected, the table stays well
    formed with the same headers, loses no row and gains one at most; the
    folders, the warnings and the call log are as before, and a record
    that raises leaves the whole world as it was. *)
Theorem candidate_keeps_table_shape c w :
  wf (character_df w) →
  let run := Ingestor.apply_candidate (columns (character_df w)) c w in
  wf (character_df run.2) ∧
  columns (character_df run.2) = columns (character_df w) ∧
  length (rows (character_df w)) ≤ length (rows (character_df run.2)) ∧
  length (rows (character_df run.2)) ≤ S (length (rows (character_df w))) ∧
  folders run.2 = folders w ∧ warnings run.2 = warnings w ∧ calls run.2 = calls w ∧
  (∀ e, run.1 = Raise e → run.2 = w).
Proof.
  intros Hwf. cbv zeta.
  destruct (apply_candidate_kept c w Hwf)
    as ((Hwf' & Hcols & Hlen & Hcalls & _) & Hfolders & Hwarn & Hmax & Hraise).
  by split_and!.
Qed.

Lemma candidate_keeps_table_shape_witness :
  let run := Ingestor.apply_candidate Examples.hdr
               (Ingestor.JsonRecord {[ "name" := Some "Serana" ]}) Worlds.lydia_world in
  wf (character_df run.2) ∧
  columns (character_df run.2) = Examples.hdr ∧
  3 ≤ length (rows (character_df run.2)) ∧
  length (rows (character_df run.2)) ≤ 4 ∧
  folders run.2 = ∅ ∧ warnings run.2 = [] ∧ calls run.2 = [] ∧
  (∀ e, run.1 = Raise e → run.2 = Worlds.lydia_world).
Proof.
  exact (candidate_keeps_table_shape (Ingestor.JsonRecord {[ "name" := Some "Serana" ]})
           Worlds.lydia_world lydia_wf).
Defined.

(** ** A whole pass *)

Lemma for_each_inv {A} (Q : world → Prop) (l : list A) (body : A → M unit) w :
  (∀ x w, Q w → Q (body x w).2) → Q w → Q (for_each l body w).2.
Proof.
  intros Hbody. revert w. induction l as [|x l IH]; intros w Hw; [done|].
  cbn [for_each]. unfold bind. pose proof (Hbody x w Hw) as Hx.
  destruct (body x w) as [[[]|e] w']; simpl in *; [by apply IH|done].
Qed.

Section PassInvariant.

Variable w0 : world.

Local Abbreviation kept := (pass_kept w0).

Lemma apply_candidate_inv c w :
  kept w → kept (Ingestor.apply_candidate (columns (character_df w0)) c w).2.
Proof.
  intros [Hkept Hfolders].
  pose proof Hkept as (Hwf & Hcols & _).
  rewrite <- Hcols.
  destruct (apply_candidate_kept c w Hwf) as (Hstep & Hf & _).
  split; [by eapply table_kept_trans|congruence].
Qed.

Lemma apply_file_inv f w :
  kept w → kept (Ingestor.apply_file (columns (character_df w0)) f w).2.
Proof.
  intros Hw. unfold Ingestor.apply_file.
  destruct (String.eqb _ ".json").
  - unfold bind, lift. destruct (json_load f) as [j|e]; [|done].
    destruct (Ingestor.json_records j) as [items|e]; [|done].
    apply for_each_inv; [|done].
    intros [content|] w' Hw'; [by apply apply_candidate_inv|done].
  - destruct (String.eqb _ ".csv"); [|done].
    unfold bind, lift. destruct (read_csv f) as [extra_df|e]; [|done].
    apply for_each_inv; [|done]. intros row w' Hw'. by apply apply_candidate_inv.
Qed.

Lemma after_file_inv folder f w :
  kept w → kept (after_file folder (columns (character_df w0)) w f).
Proof.
  intros Hw. pose proof (apply_file_inv f w Hw) as Hf. unfold after_file.
  destruct (Ingestor.apply_file _ f w) as [[[]|e] w']; simpl in Hf; [done|].
  destruct Hf as [(Hwf & Hcols & Hlen & Hcalls & Hwarn) Hfolders].
  split; [|done]. unfold table_kept. simpl. split_and!; try done.
  by apply prefix_app_r.
Qed.

Lemma files_inv folder files w :
  kept w → kept (foldl (after_file folder (columns (character_df w0))) w files).
Proof.
  revert w. induction files as [|f files IH]; intros w Hw; [done|].
  simpl. apply IH. by apply after_file_inv.
Qed.

End PassInvariant.

Lemma apply_character_overrides_run folder headers w :
  Ingestor.__apply_character_overrides folder headers w
  = (Ok tt, foldl (after_file folder headers) (ensure_folder folder w)
              (default [] (folders w !! folder))).
Proof.
  unfold Ingestor.__apply_character_overrides, Ingestor.exists_folder,
    Ingestor.makedirs, Ingestor.listdir, ensure_folder, bind, ret.
  destruct (folders w !! folder) as [files|] eqn:Hfolder.
  - rewrite bool_decide_eq_true_2 by eauto. rewrite Hfolder.
    apply for_each_guarded.
  - rewrite bool_decide_eq_false_2 by (by intros [? ?]).
    cbn [folders]. rewrite lookup_insert_eq. done.
Qed.

Lemma ensure_folder_is_Some folder w : is_Some (folders (ensure_folder folder w) !! folder).
Proof.
  unfold ensure_folder. destruct (folders w !! folder) eqn:Hf; [by rewrite Hf|].
  simpl. rewrite lookup_insert_eq. eauto.
Qed.

Lemma ensure_folder_keeps folder other w :
  is_Some (folders w !! other) → is_Some (folders (ensure_folder folder w) !! other).
Proof.
  intros Hother. unfold ensure_folder. destruct (folders w !! folder) eqn:Hf; [done|].
  simpl. destruct (decide (folder = other)) as [->|Hne].
  - rewrite lookup_insert_eq. eauto.
  - by rewrite lookup_insert_ne.
Qed.

Lemma table_kept_ensure folder w :
  wf (character_df w) → table_kept w (ensure_folder folder w).
Proof.
  intros Hwf. unfold ensure_folder.
  destruct (folders w !! folder); [by apply table_kept_refl|].
  unfold table_kept. simpl. by split_and!.
Qed.

Lemma ingest_kept folder w :
  wf (character_df w) →
  ∃ w', ingest folder w = (Ok tt, w') ∧ table_kept w w' ∧
        folders w' = folders (ensure_folder folder w).
Proof.
  intros Hwf. unfold ingest, bind, get_character_df.
  rewrite apply_character_overrides_run. eexists. split; [done|].
  assert (Hstart : pass_kept (ensure_folder folder w) (ensure_folder folder w)).
  { split; [|done]. apply table_kept_refl. unfold ensure_folder.
    by destruct (folders w !! folder). }
  assert (Hcols : columns (character_df w)
                  = columns (character_df (ensure_folder folder w))).
  { unfold ensure_folder. by destruct (folders w !! folder). }
  rewrite Hcols.
  destruct (files_inv (ensure_folder folder w) folder (default [] (folders w !! folder))
              _ Hstart) as [Hkept Hfolders].
  split; [|done].
  eapply table_kept_trans; [|exact Hkept]. by apply table_kept_ensure.
Qed.

(** A pass over a folder, with the table's own header list, never raises
    and keeps the shape of a well-formed table: the table stays well
    formed with the same headers and no fewer rows, no collaborator is
    called, warnings are only added, and the folders are those of the
    start plus the folder of the pass, which exists afterwards. *)
Theorem pass_keeps_table_shape folder w :
  wf (character_df w) →
  let run := ingest folder w in
  run.1 = Ok tt ∧
  wf (character_df run.2) ∧
  columns (character_df run.2) = columns (character_df w) ∧
  length (rows (character_df w)) ≤ length (rows (character_df run.2)) ∧
  calls run.2 = calls w ∧
  warnings w `prefix_of` warnings run.2 ∧
  folders run.2 = folders (ensure_folder folder w) ∧
  is_Some (folders run.2 !! folder).
Proof.
  intros Hwf. cbv zeta.
  destruct (ingest_kept folder w Hwf) as (w' & -> & (? & ? & ? & ? & ?) & Hfolders).
  simpl. split_and!; try done. rewrite Hfolders. apply ensure_folder_is_Some.
Qed.

Lemma pass_keeps_table_shape_witness :
  let run := ingest "character_overrides" Packs.start in
  run.1 = Ok tt ∧
  wf (character_df run.2) ∧
  columns (character_df run.2) = Examples.hdr ∧
  3 ≤ length (rows (character_df run.2)) ∧
  calls run.2 = [] ∧
  [] `prefix_of` warnings run.2 ∧
  folders run.2 = folders (ensure_folder "character_overrides" Packs.start) ∧
  is_Some (folders run.2 !! "character_overrides").
Proof. exact (pass_keeps_table_shape "character_overrides" Packs.start lydia_wf). Defined.

(** The two passes of [__init__] (the mod's folder, then the user's) never
    raise; afterwards both folders exist, and the table is well formed with
    the headers it had and no fewer rows. *)
Theorem startup_overrides_never_raise mod_folder user_folder w :
  wf (character_df w) →
  let run := apply_all_overrides mod_folder user_folder w in
  run.1 = Ok tt ∧
  wf (character_df run.2) ∧
  columns (character_df run.2) = columns (character_df w) ∧
  length (rows (character_df w)) ≤ length (rows (character_df run.2)) ∧
  calls run.2 = calls w ∧
  is_Some (folders run.2 !! mod_folder) ∧
  is_Some (folders run.2 !! user_folder).
Proof.
  intros Hwf. cbv zeta. unfold apply_all_overrides, bind.
  destruct (ingest_kept mod_folder w Hwf) as (w1 & -> & Hk1 & Hf1).
  pose proof Hk1 as (Hwf1 & _).
  destruct (ingest_kept user_folder w1 Hwf1) as (w2 & -> & Hk2 & Hf2).
  destruct (table_kept_trans _ _ _ Hk1 Hk2) as (? & ? & ? & ? & ?).
  simpl. split_and!; try done; rewrite Hf2.
  - apply ensure_folder_keeps. rewrite Hf1. apply ensure_folder_is_Some.
  - apply ensure_folder_is_Some.
Qed.

Lemma startup_overrides_never_raise_witness :
  let run := apply_all_overrides "mod" "user" Packs.start in
  run.1 = Ok tt ∧
  wf (character_df run.2) ∧
  columns (character_df run.2) = Examples.hdr ∧
  3 ≤ length (rows (character_df run.2)) ∧
  calls run.2 = [] ∧
  is_Some (folders run.2 !! "mod") ∧
  is_Some (folders run.2 !! "user").
Proof. exact (startup_overrides_never_raise "mod" "user" Packs.start lydia_wf). Defined.

Lemma after_file_other folder headers w f :
  other_extension f → after_file folder headers w f = w.
Proof.
  intros [Hjson Hcsv]. unfold after_file, Ingestor.apply_file.
  apply String.eqb_neq in Hjson, Hcsv. by rewrite Hjson, Hcsv.
Qed.

(** Directory entries whose extension is neither [.json] nor [.csv] are
    passed over without a warning: a pass over a folder that holds only
    such entries leaves the world exactly as it was. *)
Theorem other_extensions_are_ignored folder headers files w :
  folders w !! folder = Some files →
  Forall other_extension files →
  Ingestor.__apply_character_overrides folder headers w = (Ok tt, w).
Proof.
  intros Hfolder Hother. rewrite apply_character_overrides_run.
  unfold ensure_folder. rewrite Hfolder. simpl. f_equal. clear Hfolder.
  induction Hother as [|f files Hf Hfiles IH]; [done|].
  simpl. by rewrite after_file_other.
Qed.

Lemma other_extensions_are_ignored_witness :
  let readme := mkFile "readme.txt" (Raise DecodeError) (Raise DecodeError) in
  let hidden := mkFile ".json" (Ok (JDict {[ "name" := Some "Serana" ]}))
                  (Raise DecodeError) in
  let w := mkWorld Examples.lydia_table {[ "overrides" := [readme; hidden] ]} [] [] in
  Ingestor.__apply_character_overrides "overrides" Examples.hdr w = (Ok tt, w).
Proof.
  cbv zeta. eapply other_extensions_are_ignored.
  - reflexivity.
  - repeat constructor; vm_compute; discriminate.
Defined.

(** ** What a candidate is read for *)

Lemma get_agree c1 c2 k dflt :
  Ingestor.lookup c1 k = Ingestor.lookup c2 k →
  Ingestor.get c1 k dflt = Ingestor.get c2 k dflt.
Proof. unfold Ingestor.get. by intros ->. Qed.

Lemma new_row_agree c1 c2 headers :
  (∀ k, k ∈ headers → Ingestor.lookup c1 k = Ingestor.lookup c2 k) →
  Ingestor.new_row c1 headers = Ingestor.new_row c2 headers.
Proof.
  intros Hagree. unfold Ingestor.new_row.
  induction headers as [|h headers IH]; [done|]. simpl.
  rewrite (get_agree c1 c2 h) by (apply Hagree; left).
  rewrite IH; [done|]. intros k Hk. apply Hagree. by right.
Qed.

Lemma update_row_agree c1 c2 (m : mask) headers df :
  (∀ k, k ∈ headers → Ingestor.lookup c1 k = Ingestor.lookup c2 k) →
  Ingestor.update_row c1 m headers df = Ingestor.update_row c2 m headers df.
Proof.
  revert df. induction headers as [|h headers IH]; intros df Hagree; [done|].
  simpl. rewrite !overwrites_supplied.
  rewrite (get_agree c1 c2 h) by (apply Hagree; left).
  rewrite (Hagree h) by left.
  apply IH. intros k Hk. apply Hagree. by right.
Qed.

(** A candidate is read under the table's headers and under [name],
    [base_id] and [race] only: two candidates that agree there (a JSON
    object and a CSV row with the same strings, or two objects that differ
    in keys the table does not have) are applied alike. *)
Theorem candidates_read_alike headers c1 c2 w :
  (∀ k, k ∈ headers ++ ["name"; "base_id"; "race"] →
        Ingestor.lookup c1 k = Ingestor.lookup c2 k) →
  Ingestor.apply_candidate headers c1 w = Ingestor.apply_candidate headers c2 w.
Proof.
  intros Hagree. rewrite !apply_candidate_run.
  assert (Hmatch : match_candidate (character_df w) c1
                   = match_candidate (character_df w) c2).
  { unfold match_candidate, cand_base_id, cand_name, cand_race.
    rewrite (get_agree c1 c2 "base_id"), (get_agree c1 c2 "name"),
      (get_agree c1 c2 "race"); [done|..]; apply Hagree; set_solver. }
  rewrite Hmatch.
  rewrite (new_row_agree c1 c2 headers) by (intros k Hk; apply Hagree; set_solver).
  destruct (match_candidate (character_df w) c2) as [[m|]|e]; [|done..].
  by rewrite (update_row_agree c1 c2 m headers) by (intros k Hk; apply Hagree; set_solver).
Qed.

Lemma candidates_read_alike_witness :
  Ingestor.apply_candidate Examples.hdr
    (Ingestor.JsonRecord {[ "name" := Some "Lydia"; "voice_model" := Some "NewVoice";
                            "mod_author" := Some "someone" ]})
    Worlds.lydia_world
  = Ingestor.apply_candidate Examples.hdr
      (Ingestor.CsvRecord ["voice_model"; "name"] [PyStr "NewVoice"; PyStr "Lydia"])
      Worlds.lydia_world.
Proof.
  apply candidates_read_alike. intros k Hk.
  repeat (apply elem_of_cons in Hk as [->|Hk]); try reflexivity.
  by apply elem_of_nil in Hk.
Defined.

(** ** A row inserted, then looked up *)

Lemma inserted_row_tier1 df c b n rc :
  Spec.has_key_columns df →
  cand_base_id c = PyStr b → cand_name c = PyStr n → cand_race c = PyStr rc →
  String.length (Py.lstrip0 b) ≤ 6 →
  (∀ row, row ∈ rows df → SelfQuery.tier1 df b n rc row = false) →
  SelfQuery.found_at_tier1
    (mkDataFrame (columns df) (rows df ++ [Ingestor.new_row c (columns df)]))
    (length (rows df)) (Ingestor.new_row c (columns df)) b n rc.
Proof.
  intros (Hkb & Hkn & Hkr) Hb Hn Hrc Hshort Hfresh.
  apply tier1_only_row.
  - done.
  - simpl. rewrite lookup_app_r by done. by rewrite Nat.sub_diag.
  - apply tier1_own_identity; [|done].
    unfold SelfQuery.own_identity, Spec.field. simpl.
    rewrite !field_new_row by done.
    fold (cand_base_id c) (cand_name c) (cand_race c). by rewrite Hb, Hn, Hrc.
  - intros j row' Hj Hne. simpl in Hj.
    assert (j < length (rows df)) as Hlt.
    { apply lookup_lt_Some in Hj. rewrite length_app in Hj. simpl in Hj. lia. }
    rewrite lookup_app_l in Hj by done.
    rewrite <- (Hfresh row') by (by eapply list_elem_of_lookup_2). done.
Qed.

(** Insert, then look up: a candidate with string name, id and race and a
    short id, inserted because no row agreed with it on all three, is the
    row the matcher returns for that identity afterwards, at the first
    tier. *)
Theorem inserted_row_is_found c w b n rc :
  match_candidate (character_df w) c = Ok None →
  cand_base_id c = PyStr b → cand_name c = PyStr n → cand_race c = PyStr rc →
  String.length (Py.lstrip0 b) ≤ 6 →
  (∀ row, row ∈ rows (character_df w) →
          SelfQuery.tier1 (character_df w) b n rc row = false) →
  ∃ df1,
    Ingestor.apply_candidate (columns (character_df w)) c w = (Ok tt, with_df w df1) ∧
    rows df1 = rows (character_df w)
               ++ [Ingestor.new_row c (columns (character_df w))] ∧
    Gameable.matched_by df1 b n rc = Ok (Some "name, ID, race") ∧
    ∃ m, Gameable._get_matching_df_rows_matcher df1 b n rc = Ok (Some m) ∧
         Pandas.select m (rows df1) = [Ingestor.new_row c (columns (character_df w))].
Proof.
  intros Hnone Hb Hn Hrc Hshort Hfresh.
  pose proof Hnone as (b' & n' & rc' & _ & _ & _ & Hmatch)%call_matcher_Ok.
  pose proof (matcher_Ok_key_columns _ _ _ _ _ Hmatch) as Hcols.
  destruct (inserted_row_tier1 (character_df w) c b n rc Hcols Hb Hn Hrc Hshort Hfresh)
    as (Hby & m & Hm & _ & Hsel).
  eexists. split.
  { rewrite apply_candidate_run, Hnone. unfold Pandas.append_row, Ingestor.new_row.
    rewrite decide_True by (by rewrite length_map). done. }
  split; [done|]. split; [done|]. by exists m.
Qed.

Lemma inserted_row_is_found_witness :
  ∃ df1,
    Ingestor.apply_candidate Examples.hdr
      (Ingestor.JsonRecord {[ "name" := Some "Serana"; "base_id" := Some "02B74" ]})
      Worlds.lydia_world = (Ok tt, with_df Worlds.lydia_world df1) ∧
    rows df1 = rows Examples.lydia_table
               ++ [[PyStr "Serana"; PyStr "02B74"; PyStr ""; PyStr ""]] ∧
    Gameable.matched_by df1 "02B74" "Serana" "" = Ok (Some "name, ID, race") ∧
    ∃ m, Gameable._get_matching_df_rows_matcher df1 "02B74" "Serana" "" = Ok (Some m) ∧
         Pandas.select m (rows df1)
         = [[PyStr "Serana"; PyStr "02B74"; PyStr ""; PyStr ""]].
Proof.
  assert (Hfresh : ∀ row, row ∈ rows Examples.lydia_table →
            SelfQuery.tier1 Examples.lydia_table "02B74" "Serana" "" row = false).
  { intros row Hrow.
    repeat (apply elem_of_cons in Hrow as [->|Hrow]); try reflexivity.
    by apply elem_of_nil in Hrow. }
  assert (Hshort : String.length (Py.lstrip0 "02B74") ≤ 6) by (simpl; lia).
  assert (Hnone : match_candidate (character_df Worlds.lydia_world)
                    (Ingestor.JsonRecord {[ "name" := Some "Serana";
                                            "base_id" := Some "02B74" ]}) = Ok None)
    by (vm_compute; reflexivity).
  destruct (inserted_row_is_found
              (Ingestor.JsonRecord {[ "name" := Some "Serana";
                                      "base_id" := Some "02B74" ]})
              Worlds.lydia_world "02B74" "Serana" ""
              Hnone eq_refl eq_refl eq_refl Hshort Hfresh)
    as (df1 & Hrun & Hrows & Hby & m & Hm & Hsel).
  exists df1. split; [exact Hrun|]. split; [exact Hrows|]. split; [exact Hby|].
  exists m. split; [exact Hm|exact Hsel].
Defined.

(** ** The last tier: the id alone *)

(** When no row has the queried name and exactly one row has the queried
    full id, the matcher returns that row through the tier "ID", whatever
    its name is.  A row without an id has the empty full id, so it is the
    row found for a query whose id is empty or made of zeros. *)
Theorem unique_id_found_without_name df base_id name race i row :
  Spec.has_key_columns df →
  (∀ row', row' ∈ rows df → Spec.name_match df name row' = false) →
  rows df !! i = Some row →
  Spec.id_match df base_id row = true →
  (∀ j row', rows df !! j = Some row' → j ≠ i → Spec.id_match df base_id row' = false) →
  Gameable.matched_by df base_id name race = Ok (Some "ID") ∧
  ∃ m, Gameable._get_matching_df_rows_matcher df base_id name race = Ok (Some m) ∧
       m !! i = Some true ∧ Pandas.select m (rows df) = [row].
Proof.
  intros Hcols Hname Hi Hid Huniq.
  pose proof (selects_one_only df _ i row Hi Hid Huniq) as Hone.
  assert (Hnone : ∀ p, (∀ r, p r = true → Spec.name_match df name r = true) →
                       Spec.selects_one df p = false).
  { intros p Himp. apply selects_one_none. intros r Hr.
    destruct (p r) eqn:Hp; [|done].
    pose proof (Himp r Hp) as Hn. by rewrite (Hname r Hr) in Hn. }
  destruct (ordered_matchers_tiers df base_id name race Hcols)
    as (matchers & Hom & Hmasks & Hlabels).
  do 8 (destruct matchers as [|[? ?] matchers]; try discriminate Hlabels).
  simpl in Hmasks, Hlabels. simplify_eq.
  unfold Gameable.matched_by, Gameable._get_matching_df_rows_matcher.
  rewrite Hom. unfold rbind. cbn [Gameable.first_single].
  rewrite !count_selector.
  rewrite !Hnone by (intros r Hr; repeat (apply andb_true_iff in Hr as [Hr ?]); done).
  rewrite Hone. simpl. split; [done|].
  eexists. split; [done|]. unfold Spec.selector. split.
  - by rewrite list_lookup_fmap, Hi; simpl; rewrite Hid.
  - rewrite select_map_filter. by apply (filter_only _ _ i).
Qed.

Lemma unique_id_found_without_name_witness :
  let df := mkDataFrame Examples.hdr
    [ [PyStr "Lydia"; PyStr "000A2F3C"; PyStr "Nord"; PyStr ""];
      [PyStr "Guard"; PyNaN; PyStr "Nord"; PyStr "MaleGuard"] ] in
  Gameable.matched_by df "" "Serana" "" = Ok (Some "ID") ∧
  ∃ m, Gameable._get_matching_df_rows_matcher df "" "Serana" "" = Ok (Some m) ∧
       m !! 1 = Some true ∧
       Pandas.select m (rows df)
       = [[PyStr "Guard"; PyNaN; PyStr "Nord"; PyStr "MaleGuard"]].
Proof.
  cbv zeta. apply unique_id_found_without_name.
  - repeat split; eexists; reflexivity.
  - intros row Hrow.
    repeat (apply elem_of_cons in Hrow as [->|Hrow]); try reflexivity.
    by apply elem_of_nil in Hrow.
  - reflexivity.
  - reflexivity.
  - intros j row' Hj Hne.
    destruct j as [|[|j]]; [|done|]; simpl in Hj; simplify_eq; reflexivity.
Defined.

(** * Applying a document twice *)

(** What the conditions of idempotence exclude: an update by an id with a
    load-order prefix is not found again, so the second pass inserts. *)
Lemma long_id_update_inserts_next :
  ¬ idempotent_pass "character_overrides" Reruns.long_id_start.
Proof. unfold idempotent_pass. vm_compute. discriminate. Qed.

(** And a record that renames the row an earlier record of the same
    document was matched to makes the earlier record an insert on the
    second pass. *)
Lemma renaming_record_inserts_next :
  ¬ idempotent_pass "character_overrides" Reruns.rename_start.
Proof. unfold idempotent_pass. vm_compute. discriminate. Qed.









(** ** The row an update wrote is found again *)



Section Rematch.

Variables (df df1 : DataFrame) (i : nat) (row row' : list pyval).
Variables (b n rc : string).

Hypothesis Hcols : columns df1 = columns df.
Hypothesis Hi : rows df !! i = Some row.
Hypothesis Hi1 : rows df1 !! i = Some row'.
Hypothesis Hothers : ∀ j, j ≠ i → rows df1 !! j = rows df !! j.

(** What the update did to the three structural cells of the row: left
    them, or wrote the value the query carries. *)
Hypothesis Hname :
  Spec.field df row' "name" = Spec.field df row "name" ∨
  Spec.field df row' "name" = PyStr n.
Hypothesis Hrace :
  Spec.field df row' "race" = Spec.field df row "race" ∨
  Spec.field df row' "race" = PyStr rc.
Hypothesis Hid :
  Spec.field df row' "base_id" = Spec.field df row "base_id" ∨
  Spec.field df row' "base_id" = PyStr b.
Hypothesis Hshort : String.length (Py.lstrip0 b) ≤ 6.

Local Abbreviation rel := (related df i row row').














End Rematch.

(** ** One record, applied and applied again *)















(** The update of the one-row CSV file rewrites Lydia's id, and the second
    pass finds the rewritten row. *)
Lemma lydia_csv_first_pass :
  rows (character_df (ingest "character_overrides" Reruns.csv_start).2) !! 0
  = Some [PyStr "Lydia"; PyStr "A2F3C"; PyStr "Nord"; PyStr "NewVoice"].
Proof. vm_compute. reflexivity. Qed.




Lemma serana_first_pass :
  rows (character_df (ingest "character_overrides" Packs.serana_start).2)
  = rows Examples.lydia_table ++ [[PyStr "Serana"; PyStr ""; PyStr ""; PyStr ""]].
Proof. vm_compute. reflexivity. Qed.

